(** * Vision-Language-Runtime: state machine, camera recovery and
      single-flight inference

    A shallow embedding of
      - [src/js/utils/state-machine.js]   (class StateMachine),
      - the webcam service                (attemptAutoRecovery,
                                           requestWebcamPermission),
      - the VLM service                   (runInference and its lock),
    with the properties the specification states about them, and of
      - the rest of the webcam service    (stopStream, switchCamera,
                                           getCameraErrorMessage),
      - the rest of the VLM service       (loadModel, getLoadedState),
      - [src/js/utils/state-manager.js]   (class StateManager),
      - what main.js and the loading screen do with the state machine,
    with further properties read off the code.

    JavaScript objects are kept in an explicit store: [this.state], the
    error records and their recover actions are objects reached through
    references, and the spread [{...this.state}] allocates a new object
    whose fields hold the same references. *)

From stdpp Require Import base list strings gmap.
From Stdlib Require Import ZArith Lia Sorted.
From Equations Require Import Equations.

Open Scope string_scope.
Open Scope list_scope.

(** ** Values shared by the modules *)

(** A reference into one of the object stores. *)
Abbreviation loc := nat (only parsing).

(** [MediaStreamTrack.readyState]. *)
Inductive ReadyState := live | ended.

(** A [MediaStream] is a reference to the list of its tracks. *)
Abbreviation MediaStream := nat (only parsing).

#[global] Instance ReadyState_eq_dec : EqDecision ReadyState.
Proof. solve_decision. Defined.

(** [a || b] on strings: the empty string and [undefined] are falsy. *)
Definition or_default (o : option string) (d : string) : string :=
  match o with
  | Some s => if String.eqb s "" then d else s
  | None => d
  end.

(** ** The application state machine *)

Module StateMachine.

Inductive ViewState :=
  v_permission | v_welcome | v_loading | v_runtime | v_error | v_image_upload.

Inductive RuntimeState :=
  r_idle | r_warming | r_running | r_paused | r_recovering | r_failed.

Inductive LoadingPhase :=
  loading_model | loading_wgpu | warming_up | complete.

#[global] Instance ViewState_eq_dec : EqDecision ViewState.
Proof. solve_decision. Defined.
#[global] Instance RuntimeState_eq_dec : EqDecision RuntimeState.
Proof. solve_decision. Defined.
#[global] Instance LoadingPhase_eq_dec : EqDecision LoadingPhase.
Proof. solve_decision. Defined.

(** The function stored in [recoverAction.handler]. The machine builds
    two kinds of closure; a caller of FATAL_ERROR may pass its own. *)
Inductive Handler :=
| h_dispatch (ev : string)   (* () => this.dispatch(ev) *)
| h_reload                   (* () => window.location.reload() *)
| h_external (id : nat).     (* a function supplied in the payload *)

Record RecoverAction := { label : string; handler : Handler }.

Record ErrorState := {
  code : string;
  message : string;
  technical : option string;
  recoverAction : option loc   (* reference to a RecoverAction object *)
}.

Record AppState := {
  viewState : ViewState;
  runtimeState : RuntimeState;
  loadingPhase : LoadingPhase;
  webcamStream : option MediaStream;
  isVideoReady : bool;
  hasWebGPU : bool;
  error : option loc           (* reference to an ErrorState object *)
}.

(** [Partial<AppState>]: the argument of the constructor and of
    [setState]. *)
Record PartialState := {
  p_viewState : option ViewState;
  p_runtimeState : option RuntimeState;
  p_loadingPhase : option LoadingPhase;
  p_webcamStream : option (option MediaStream);
  p_isVideoReady : option bool;
  p_hasWebGPU : option bool;
  p_error : option (option loc)
}.

Definition no_updates : PartialState :=
  {| p_viewState := None; p_runtimeState := None; p_loadingPhase := None;
     p_webcamStream := None; p_isVideoReady := None; p_hasWebGPU := None;
     p_error := None |}.

(** The [data] object of [dispatch]; an absent property is [None]. *)
Record Payload := {
  data_stream : option MediaStream;
  data_message : option string;
  data_technical : option string;
  data_reason : option string;
  data_error : option string;
  data_code : option string;
  data_recoverAction : option loc
}.

(** [{}], the default value of [data]. *)
Definition no_data : Payload :=
  {| data_stream := None; data_message := None; data_technical := None;
     data_reason := None; data_error := None; data_code := None;
     data_recoverAction := None |}.

(** The object stores. *)
Record Heap := {
  apps : list AppState;
  errs : list ErrorState;
  acts : list RecoverAction;
  media : list (list ReadyState)
}.

Definition empty_heap : Heap :=
  {| apps := []; errs := []; acts := []; media := [] |}.

(** The [detail] of a 'statechange' CustomEvent. *)
Inductive Detail :=
| dispatch_detail (state prevState : loc) (ev : string) (data : Payload)
| setState_detail (state prevState : loc) (updates : PartialState).

(** The store, the reference held in [this.state], and the 'statechange'
    events delivered so far (oldest first). Listeners are observers:
    what they are handed is recorded, what they do with it is the
    client's business (see the assignments below). *)
Record World := {
  heap : Heap;
  state : loc;
  emitted : list Detail
}.

(** The state written by the constructor before [...initialState]. *)
Definition default_state : AppState :=
  {| viewState := v_permission; runtimeState := r_idle;
     loadingPhase := loading_model; webcamStream := None;
     isVideoReady := false; hasWebGPU := true; error := None |}.

#[global] Instance AppState_inhabited : Inhabited AppState :=
  populate default_state.

(** *** Field assignments *)

Definition set_viewState (v : ViewState) (s : AppState) : AppState :=
  {| viewState := v; runtimeState := runtimeState s;
     loadingPhase := loadingPhase s; webcamStream := webcamStream s;
     isVideoReady := isVideoReady s; hasWebGPU := hasWebGPU s;
     error := error s |}.

Definition set_runtimeState (r : RuntimeState) (s : AppState) : AppState :=
  {| viewState := viewState s; runtimeState := r;
     loadingPhase := loadingPhase s; webcamStream := webcamStream s;
     isVideoReady := isVideoReady s; hasWebGPU := hasWebGPU s;
     error := error s |}.

Definition set_loadingPhase (p : LoadingPhase) (s : AppState) : AppState :=
  {| viewState := viewState s; runtimeState := runtimeState s;
     loadingPhase := p; webcamStream := webcamStream s;
     isVideoReady := isVideoReady s; hasWebGPU := hasWebGPU s;
     error := error s |}.

Definition set_webcamStream (m : option MediaStream) (s : AppState)
  : AppState :=
  {| viewState := viewState s; runtimeState := runtimeState s;
     loadingPhase := loadingPhase s; webcamStream := m;
     isVideoReady := isVideoReady s; hasWebGPU := hasWebGPU s;
     error := error s |}.

Definition set_error (e : option loc) (s : AppState) : AppState :=
  {| viewState := viewState s; runtimeState := runtimeState s;
     loadingPhase := loadingPhase s; webcamStream := webcamStream s;
     isVideoReady := isVideoReady s; hasWebGPU := hasWebGPU s;
     error := e |}.

(** [{...s, ...updates}] *)
Definition spread (s : AppState) (u : PartialState) : AppState :=
  {| viewState := default (viewState s) (p_viewState u);
     runtimeState := default (runtimeState s) (p_runtimeState u);
     loadingPhase := default (loadingPhase s) (p_loadingPhase u);
     webcamStream := default (webcamStream s) (p_webcamStream u);
     isVideoReady := default (isVideoReady s) (p_isVideoReady u);
     hasWebGPU := default (hasWebGPU s) (p_hasWebGPU u);
     error := default (error s) (p_error u) |}.

(** *** Allocation and access *)

Definition alloc_app (s : AppState) (h : Heap) : loc * Heap :=
  (length (apps h),
   {| apps := apps h ++ [s]; errs := errs h; acts := acts h;
      media := media h |}).

Definition alloc_err (e : ErrorState) (h : Heap) : loc * Heap :=
  (length (errs h),
   {| apps := apps h; errs := errs h ++ [e]; acts := acts h;
      media := media h |}).

Definition alloc_act (a : RecoverAction) (h : Heap) : loc * Heap :=
  (length (acts h),
   {| apps := apps h; errs := errs h; acts := acts h ++ [a];
      media := media h |}).

Definition write_app (l : loc) (s : AppState) (h : Heap) : Heap :=
  {| apps := <[l := s]> (apps h); errs := errs h; acts := acts h;
     media := media h |}.

(** The object [this.state] refers to. *)
Definition this_state (w : World) : AppState := apps (heap w) !!! state w.

(** The error record of the live state, read through its reference. *)
Definition this_error (w : World) : option ErrorState :=
  match error (this_state w) with
  | Some e => errs (heap w) !! e
  | None => None
  end.

(** *** The rule table *)

Inductive Source := from_state (v : ViewState) | from_any.

Record StateTransition := {
  event : string;
  from : Source;
  to : ViewState;
  guard : option (AppState -> Payload -> bool);
  action : option (Payload -> Heap -> AppState -> Heap * AppState)
}.

(** A guard reads [this.state] and [data]; an action assigns fields of
    [this.state] and allocates the records it builds. *)
Definition reload_action : RecoverAction :=
  {| label := "Reload Page"; handler := h_reload |}.

Definition permission_denied_action (data : Payload) (h : Heap)
    (s : AppState) : Heap * AppState :=
  let (a, h1) :=
    alloc_act {| label := "Retry"; handler := h_dispatch "RETRY" |} h in
  let (e, h2) :=
    alloc_err {| code := "CAMERA_DENIED";
                 message := or_default (data_message data)
                                       "Camera access denied";
                 technical := data_technical data;
                 recoverAction := Some a |} h1 in
  (h2, set_error (Some e) s).

Definition stream_ended_action (data : Payload) (h : Heap)
    (s : AppState) : Heap * AppState :=
  let s1 := set_runtimeState r_recovering s in
  let (a, h1) :=
    alloc_act {| label := "Reconnect";
                 handler := h_dispatch "RETRY_STREAM" |} h in
  let (e, h2) :=
    alloc_err {| code := "STREAM_LOST";
                 message := or_default (data_reason data)
                                       "Camera stream lost";
                 technical := None;
                 recoverAction := Some a |} h1 in
  (h2, set_error (Some e) s1).

Definition stream_recovered_action (data : Payload) (h : Heap)
    (s : AppState) : Heap * AppState :=
  (h, set_error None
        (set_runtimeState r_running
           (set_webcamStream (data_stream data) s))).

Definition model_failed_action (data : Payload) (h : Heap)
    (s : AppState) : Heap * AppState :=
  let s1 := set_runtimeState r_failed s in
  let (a, h1) := alloc_act reload_action h in
  let (e, h2) :=
    alloc_err {| code := "MODEL_LOAD_FAILED";
                 message := "Failed to load AI model";
                 technical := data_error data;
                 recoverAction := Some a |} h1 in
  (h2, set_error (Some e) s1).

Definition fatal_error_action (data : Payload) (h : Heap)
    (s : AppState) : Heap * AppState :=
  let s1 := set_runtimeState r_failed s in
  let (a, h1) :=
    match data_recoverAction data with
    | Some a => (a, h)
    | None => alloc_act reload_action h
    end in
  let (e, h2) :=
    alloc_err {| code := or_default (data_code data) "UNKNOWN_ERROR";
                 message := or_default (data_message data)
                                       "An unexpected error occurred";
                 technical := data_technical data;
                 recoverAction := Some a |} h1 in
  (h2, set_error (Some e) s1).

Definition defineTransitions : list StateTransition :=
  [ (* Permission flow *)
    {| event := "PERMISSION_GRANTED"; from := from_state v_permission;
       to := v_welcome;
       guard := Some (fun _ data => bool_decide (is_Some (data_stream data)));
       action := Some (fun data h s =>
                         (h, set_webcamStream (data_stream data) s)) |};
    {| event := "PERMISSION_DENIED"; from := from_state v_permission;
       to := v_error; guard := None;
       action := Some permission_denied_action |};
    (* Welcome flow *)
    {| event := "START"; from := from_state v_welcome; to := v_loading;
       guard := Some (fun s _ =>
                        hasWebGPU s && bool_decide (is_Some (webcamStream s)));
       action := Some (fun _ h s => (h, set_loadingPhase loading_wgpu s)) |};
    {| event := "START_FALLBACK"; from := from_state v_welcome;
       to := v_image_upload;
       guard := Some (fun s _ => negb (hasWebGPU s));
       action := None |};
    (* Loading phases *)
    {| event := "WGPU_READY"; from := from_state v_loading; to := v_loading;
       guard := None;
       action := Some (fun _ h s => (h, set_loadingPhase loading_model s)) |};
    {| event := "MODEL_LOADED"; from := from_state v_loading;
       to := v_loading; guard := None;
       action := Some (fun _ h s =>
                         (h, set_runtimeState r_warming
                               (set_loadingPhase warming_up s))) |};
    {| event := "WARMUP_COMPLETE"; from := from_state v_loading;
       to := v_runtime;
       guard := Some (fun s _ => isVideoReady s);
       action := Some (fun _ h s =>
                         (h, set_runtimeState r_running
                               (set_loadingPhase complete s))) |};
    (* Runtime flow *)
    {| event := "PAUSE"; from := from_state v_runtime; to := v_runtime;
       guard := None;
       action := Some (fun _ h s => (h, set_runtimeState r_paused s)) |};
    {| event := "RESUME"; from := from_state v_runtime; to := v_runtime;
       guard := None;
       action := Some (fun _ h s => (h, set_runtimeState r_running s)) |};
    {| event := "STREAM_ENDED"; from := from_state v_runtime;
       to := v_runtime; guard := None;
       action := Some stream_ended_action |};
    {| event := "STREAM_RECOVERED"; from := from_state v_runtime;
       to := v_runtime;
       guard := Some (fun s _ =>
                        bool_decide (runtimeState s = r_recovering));
       action := Some stream_recovered_action |};
    (* Error states *)
    {| event := "MODEL_FAILED"; from := from_state v_loading; to := v_error;
       guard := None; action := Some model_failed_action |};
    {| event := "FATAL_ERROR"; from := from_any; to := v_error;
       guard := None; action := Some fatal_error_action |};
    (* Recovery *)
    {| event := "RETRY"; from := from_state v_error; to := v_permission;
       guard := None;
       action := Some (fun _ h s =>
                         (h, set_runtimeState r_idle (set_error None s))) |}
  ].

(** *** The class *)

(** [new StateMachine(initialState)] *)
Definition new_StateMachine (initialState : PartialState) (h : Heap)
  : World :=
  let (l, h1) := alloc_app (spread default_state initialState) h in
  {| heap := h1; state := l; emitted := [] |}.

(** [t.event === event && (t.from === currentState || t.from === '*')] *)
Definition matches (ev : string) (currentState : ViewState)
    (t : StateTransition) : bool :=
  String.eqb (event t) ev
  && match from t with
     | from_state v => bool_decide (v = currentState)
     | from_any => true
     end.

Definition find_transition (ev : string) (currentState : ViewState)
  : option StateTransition :=
  List.find (matches ev currentState) defineTransitions.

(** [transition.guard && !transition.guard(data)] *)
Definition guard_fails (t : StateTransition) (s : AppState)
    (data : Payload) : bool :=
  match guard t with
  | Some g => negb (g s data)
  | None => false
  end.

Definition run_action (t : StateTransition) (data : Payload) (h : Heap)
    (s : AppState) : Heap * AppState :=
  match action t with
  | Some a => a data h s
  | None => (h, s)
  end.

Definition dispatch (ev : string) (data : Payload) (w : World)
  : bool * World :=
  let currentState := viewState (this_state w) in
  match find_transition ev currentState with
  | None => (false, w)
  | Some t =>
      if guard_fails t (this_state w) data then (false, w)
      else
        let (prevState, h1) := alloc_app (this_state w) (heap w) in
        let (h2, s1) := run_action t data h1 (this_state w) in
        let s2 := if bool_decide (to t = currentState) then s1
                  else set_viewState (to t) s1 in
        (true,
         {| heap := write_app (state w) s2 h2;
            state := state w;
            emitted := emitted w
                       ++ [dispatch_detail (state w) prevState ev data] |})
  end.

Definition setState (updates : PartialState) (w : World) : World :=
  let (prevState, h1) := alloc_app (this_state w) (heap w) in
  let (l, h2) := alloc_app (spread (this_state w) updates) h1 in
  {| heap := h2; state := l;
     emitted := emitted w ++ [setState_detail l prevState updates] |}.

(** [getState()]: the reference to a new object [{...this.state}]. *)
Definition getState (w : World) : loc * World :=
  let (l, h1) := alloc_app (this_state w) (heap w) in
  (l, {| heap := h1; state := state w; emitted := emitted w |}).

Definition canTransitionTo (targetState : ViewState) (w : World) : bool :=
  existsb (fun t =>
             match from t with
             | from_state v =>
                 bool_decide (v = viewState (this_state w))
                 && bool_decide (to t = targetState)
             | from_any => false
             end) defineTransitions.

Definition getAvailableEvents (w : World) : list string :=
  map event
    (List.filter (fun t =>
                    match from t with
                    | from_state v =>
                        bool_decide (v = viewState (this_state w))
                    | from_any => true
                    end) defineTransitions).

(** *** Runs of the machine and what a client can observe *)

(** A call made on the machine by the application. *)
Inductive Op :=
| op_dispatch (ev : string) (data : Payload)
| op_setState (updates : PartialState).

Definition perform (w : World) (o : Op) : World :=
  match o with
  | op_dispatch ev data => snd (dispatch ev data w)
  | op_setState updates => setState updates w
  end.

Definition perform_all (ops : list Op) (w : World) : World :=
  fold_left perform ops w.

(** A run made of dispatches only. *)
Definition dispatch_all (evs : list (string * Payload)) (w : World)
  : World :=
  perform_all (map (fun e => op_dispatch (fst e) (snd e)) evs) w.

(** Every track of the stream has [readyState == 'ended']. *)
Definition tracks_stopped (m : MediaStream) (h : Heap) : bool :=
  match media h !! m with
  | Some tracks => forallb (fun r => bool_decide (r = ended)) tracks
  | None => true
  end.

(** The recover action of the live error, read through both
    references. *)
Definition this_recoverAction (w : World) : option RecoverAction :=
  match this_error w with
  | Some e =>
      match recoverAction e with
      | Some a => acts (heap w) !! a
      | None => None
      end
  | None => None
  end.

(** What calling [recoverAction.handler()] does. *)
Inductive Escape :=
| esc_dispatch (applied : bool) (w : World)
| esc_reload
| esc_external (id : nat).

Definition invoke (f : Handler) (w : World) : Escape :=
  match f with
  | h_dispatch ev =>
      let (applied, w') := dispatch ev no_data w in esc_dispatch applied w'
  | h_reload => esc_reload
  | h_external id => esc_external id
  end.

(** The handler got the user out of the error: a transition was applied
    or the page reloads. *)
Definition escapes (e : Escape) : bool :=
  match e with
  | esc_dispatch applied _ => applied
  | esc_reload => true
  | esc_external _ => false
  end.

(** *** Assignments a client can make through a reference it holds *)

Definition with_heap (h : Heap) (w : World) : World :=
  {| heap := h; state := state w; emitted := emitted w |}.

(** [ref.field = value] on a state object. *)
Definition assign_field (ref : loc) (f : AppState -> AppState) (h : Heap)
  : Heap :=
  {| apps := alter f ref (apps h); errs := errs h; acts := acts h;
     media := media h |}.

(** [ref.message = msg] on an error record. *)
Definition assign_message (ref : loc) (msg : string) (h : Heap) : Heap :=
  {| apps := apps h;
     errs := alter (fun e => {| code := code e; message := msg;
                                technical := technical e;
                                recoverAction := recoverAction e |})
               ref (errs h);
     acts := acts h; media := media h |}.

(** [ref.label = text] on a recover action. *)
Definition assign_label (ref : loc) (text : string) (h : Heap) : Heap :=
  {| apps := apps h; errs := errs h;
     acts := alter (fun a => {| label := text; handler := handler a |})
               ref (acts h);
     media := media h |}.

(** *** The error-presence property and the invariant behind it *)

(** [error] is non-null exactly in a failure-indicating configuration. *)
Definition error_presence (s : AppState) : Prop :=
  error s <> None <->
  (viewState s = v_error \/ runtimeState s = r_recovering
   \/ runtimeState s = r_failed).

(** What every rule of the table maintains: in the error view an error
    is held and the runtime state is not 'recovering'; in the runtime
    view the runtime state is never 'failed', and while it is
    'recovering' an error is held; in every other view no error is held
    and the runtime state indicates no failure. *)
Definition accounted (s : AppState) : Prop :=
  match viewState s with
  | v_error => error s <> None /\ runtimeState s <> r_recovering
  | v_runtime =>
      (runtimeState s = r_recovering -> error s <> None)
      /\ runtimeState s <> r_failed
  | _ => error s = None /\ runtimeState s <> r_recovering
         /\ runtimeState s <> r_failed
  end.

End StateMachine.

(** ** The webcam service: acquisition and auto-recovery *)

Module WebcamService.

Definition MAX_RECOVERY_ATTEMPTS : nat := 3.

(** The module-level variables of the service, followed by what the
    service has done to its environment: how many times it has called
    [navigator.mediaDevices.getUserMedia], the delays it has handed to
    [setTimeout] and the messages it has passed to the registered
    callback (oldest first). *)
Record Service := {
  currentStream : option MediaStream;
  onStreamEndedCallback : bool;      (* a callback is registered *)
  autoRecoveryEnabled : bool;
  recoveryAttempts : nat;
  requests : nat;
  waited : list Z;
  notified : list string
}.

(** The state of a freshly loaded module. *)
Definition initial : Service :=
  {| currentStream := None; onStreamEndedCallback := false;
     autoRecoveryEnabled := true; recoveryAttempts := 0;
     requests := 0; waited := []; notified := [] |}.

Definition set_currentStream (m : option MediaStream) (w : Service)
  : Service :=
  {| currentStream := m;
     onStreamEndedCallback := onStreamEndedCallback w;
     autoRecoveryEnabled := autoRecoveryEnabled w;
     recoveryAttempts := recoveryAttempts w; requests := requests w;
     waited := waited w; notified := notified w |}.

Definition set_recoveryAttempts (n : nat) (w : Service) : Service :=
  {| currentStream := currentStream w;
     onStreamEndedCallback := onStreamEndedCallback w;
     autoRecoveryEnabled := autoRecoveryEnabled w;
     recoveryAttempts := n; requests := requests w;
     waited := waited w; notified := notified w |}.

(** [onStreamEnded(callback)] *)
Definition onStreamEnded (w : Service) : Service :=
  {| currentStream := currentStream w; onStreamEndedCallback := true;
     autoRecoveryEnabled := autoRecoveryEnabled w;
     recoveryAttempts := recoveryAttempts w; requests := requests w;
     waited := waited w; notified := notified w |}.

(** [setAutoRecovery(enabled)] *)
Definition setAutoRecovery (enabled : bool) (w : Service) : Service :=
  {| currentStream := currentStream w;
     onStreamEndedCallback := onStreamEndedCallback w;
     autoRecoveryEnabled := enabled;
     recoveryAttempts := recoveryAttempts w; requests := requests w;
     waited := waited w; notified := notified w |}.

(** [await new Promise(resolve => setTimeout(resolve, delay))] *)
Definition sleep (delay : Z) (w : Service) : Service :=
  {| currentStream := currentStream w;
     onStreamEndedCallback := onStreamEndedCallback w;
     autoRecoveryEnabled := autoRecoveryEnabled w;
     recoveryAttempts := recoveryAttempts w; requests := requests w;
     waited := waited w ++ [delay]; notified := notified w |}.

(** [onStreamEndedCallback(msg)] *)
Definition notify (msg : string) (w : Service) : Service :=
  {| currentStream := currentStream w;
     onStreamEndedCallback := onStreamEndedCallback w;
     autoRecoveryEnabled := autoRecoveryEnabled w;
     recoveryAttempts := recoveryAttempts w; requests := requests w;
     waited := waited w; notified := notified w ++ [msg] |}.

(** [Math.min(1000 * Math.pow(2, attempts - 1), 8000)]. The counter is
    incremented before the delay is computed, so [attempts >= 1] at the
    call and the value is an integer. *)
Definition backoffDelay (attempts : nat) : Z :=
  Z.min (1000 * 2 ^ (Z.of_nat attempts - 1)) 8000.

(** The delays of [k] consecutive attempts, the counter being [n] before
    the first of them. *)
Definition delays_from (n k : nat) : list Z :=
  map backoffDelay (seq (S n) k).

Section Camera.

(** The platform: the outcome of the k-th call of [getUserMedia], a
    stream or a rejection. *)
Variable camera : nat -> option MediaStream.

Definition getUserMedia (w : Service) : option MediaStream * Service :=
  (camera (requests w),
   {| currentStream := currentStream w;
      onStreamEndedCallback := onStreamEndedCallback w;
      autoRecoveryEnabled := autoRecoveryEnabled w;
      recoveryAttempts := recoveryAttempts w; requests := S (requests w);
      waited := waited w; notified := notified w |}).

(** The code after the three nested [try] blocks: the stream is stored
    and the counter reset. *)
Definition acquired (stream : MediaStream) (w : Service)
  : option MediaStream * Service :=
  (Some stream, set_recoveryAttempts 0 (set_currentStream (Some stream) w)).

(** [requestWebcamPermission]: [None] stands for the enriched error it
    throws when the three requests are all rejected. The argument
    [preferFrontCamera] only selects the constraints passed to the
    platform and is left out. *)
Definition requestWebcamPermission (w : Service)
  : option MediaStream * Service :=
  let (primary, w1) := getUserMedia w in
  match primary with
  | Some stream => acquired stream w1
  | None =>
      let (fallback, w2) := getUserMedia w1 in
      match fallback with
      | Some stream => acquired stream w2
      | None =>
          let (basic, w3) := getUserMedia w2 in
          match basic with
          | Some stream => acquired stream w3
          | None => (None, w3)
          end
      end
  end.

Lemma requestWebcamPermission_rejected w w' :
  requestWebcamPermission w = (None, w') ->
  recoveryAttempts w' = recoveryAttempts w.
Proof.
  unfold requestWebcamPermission, getUserMedia, acquired; cbn.
  repeat case_match; intros [= <-]; reflexivity.
Qed.

(** [if (!autoRecoveryEnabled || recoveryAttempts >= MAX_RECOVERY_ATTEMPTS)] *)
Definition refuses (w : Service) : bool :=
  negb (autoRecoveryEnabled w)
  || bool_decide (MAX_RECOVERY_ATTEMPTS <= recoveryAttempts w).

(** [recoveryAttempts++] followed by the timed wait. *)
Definition backoff (w : Service) : Service :=
  let w1 := set_recoveryAttempts (S (recoveryAttempts w)) w in
  sleep (backoffDelay (recoveryAttempts w1)) w1.

Equations? attemptAutoRecovery (w : Service) : bool * Service
  by wf (MAX_RECOVERY_ATTEMPTS - recoveryAttempts w) lt :=
attemptAutoRecovery w with Equations.Prop.Logic.inspect (refuses w) := {
  | exist _ true _ => (false, w)
  | exist _ false Hgo
      with Equations.Prop.Logic.inspect (requestWebcamPermission (backoff w)) := {
    | exist _ (Some _, w') _ => (true, set_recoveryAttempts 0 w')
    | exist _ (None, w') Hfail
        with Equations.Prop.Logic.inspect (bool_decide
                        (recoveryAttempts w' < MAX_RECOVERY_ATTEMPTS)) := {
      | exist _ true Hmore => attemptAutoRecovery w'
      | exist _ false _ => (false, w') } } }.
Proof.
  apply requestWebcamPermission_rejected in Hfail.
  apply bool_decide_eq_true in Hmore.
  rewrite Hfail in *. unfold MAX_RECOVERY_ATTEMPTS in *. cbn in *. lia.
Qed.

(** The listener put on every track of a stream acquired by
    [requestWebcamPermission], run from the 'ended' event to its last
    statement (one listener at a time). *)
Definition on_track_ended (w : Service) : Service :=
  let (recovered, w1) := attemptAutoRecovery w in
  if negb recovered && onStreamEndedCallback w1
  then notify "Camera disconnected and auto-recovery failed" w1
  else if recovered && onStreamEndedCallback w1
       then notify "Camera reconnected" w1
       else w1.

End Camera.

End WebcamService.

(** ** The VLM service: the inference lock *)

Module VLMService.

(** The fields of the service that [runInference] reads and writes.
    [processor] and [model] are [true] once they are non-null. *)
Record Service := {
  processor : bool;
  model : bool;
  inferenceLock : bool
}.

(** [new VLMService()] *)
Definition new_VLMService : Service :=
  {| processor := false; model := false; inferenceLock := false |}.

Definition set_inferenceLock (b : bool) (s : Service) : Service :=
  {| processor := processor s; model := model s; inferenceLock := b |}.

(** How the promise returned by one call of [runInference] ends. *)
Inductive Outcome :=
| resolved (text : string)
| rejected (reason : string).

(** Where a call of [runInference] stands: suspended at one of its two
    [await]s, or finished. *)
Inductive Call :=
| await_processor     (* await this.processor(rawImg, prompt, ...) *)
| await_generate      (* await this.model.generate({...}) *)
| settled (o : Outcome).

(** What [model.generate] hands back: the text accumulated by the
    streamer callback and the text [batch_decode] gives for the output
    ([None] when decoding throws), or a rejection. *)
Inductive Generation :=
| generated (streamed : string) (decoded : option string)
| generation_failed (reason : string).

(** [String.prototype.trim]. A string holds the UTF-8 encoding of the
    JavaScript text, and [trim] strips at both ends the white space and
    line terminators of ECMAScript: TAB, LF, VT, FF, CR, SPACE, U+00A0,
    U+1680, U+2000 to U+200A, U+2028, U+2029, U+202F, U+205F, U+3000
    and U+FEFF. *)
Definition is_space (c : Ascii.ascii) : bool :=
  let n := Ascii.nat_of_ascii c in
  bool_decide (n = 32) || (bool_decide (9 <= n) && bool_decide (n <= 13)).

(** U+00A0 is the bytes C2 A0. *)
Definition is_space2 (b1 b2 : nat) : bool :=
  bool_decide (b1 = 194) && bool_decide (b2 = 160).

(** The three-byte encodings: U+1680 (E1 9A 80), U+2000 to U+200A,
    U+2028, U+2029, U+202F (E2 80 80..8A, A8, A9, AF), U+205F
    (E2 81 9F), U+3000 (E3 80 80) and U+FEFF (EF BB BF). *)
Definition is_space3 (b1 b2 b3 : nat) : bool :=
  (bool_decide (b1 = 225) && bool_decide (b2 = 154) && bool_decide (b3 = 128))
  || (bool_decide (b1 = 226) && bool_decide (b2 = 128)
      && ((bool_decide (128 <= b3) && bool_decide (b3 <= 138))
          || bool_decide (b3 = 168) || bool_decide (b3 = 169)
          || bool_decide (b3 = 175)))
  || (bool_decide (b1 = 226) && bool_decide (b2 = 129) && bool_decide (b3 = 159))
  || (bool_decide (b1 = 227) && bool_decide (b2 = 128) && bool_decide (b3 = 128))
  || (bool_decide (b1 = 239) && bool_decide (b2 = 187) && bool_decide (b3 = 191)).

(** Drop the white space a string starts with. With [backwards] the
    string is read from its end, so the bytes of a code point come in
    reverse order. *)
Fixpoint trim_start (backwards : bool) (s : string) : string :=
  match s with
  | EmptyString => EmptyString
  | String c1 rest1 =>
      if is_space c1 then trim_start backwards rest1
      else
        match rest1 with
        | EmptyString => s
        | String c2 rest2 =>
            let n1 := Ascii.nat_of_ascii c1 in
            let n2 := Ascii.nat_of_ascii c2 in
            if (if backwards then is_space2 n2 n1 else is_space2 n1 n2)
            then trim_start backwards rest2
            else
              match rest2 with
              | EmptyString => s
              | String c3 rest3 =>
                  let n3 := Ascii.nat_of_ascii c3 in
                  if (if backwards then is_space3 n3 n2 n1
                      else is_space3 n1 n2 n3)
                  then trim_start backwards rest3
                  else s
              end
        end
  end.

Definition trim (s : string) : string :=
  String.rev (trim_start true (String.rev (trim_start false s))).

(** The part of [runInference] that runs before its first [await]. The
    streaming callback [onTextUpdate] does not touch the lock and is
    left out.
    [sync_error] is the error, if any, thrown by the canvas work between
    [try {] and the first [await] (a missing 2d context, [drawImage]). *)
Definition runInference (sync_error : option string) (s : Service)
  : Call * Service :=
  if inferenceLock s then (settled (resolved ""), s)
  else
    let s1 := set_inferenceLock true s in
    if negb (processor s1) || negb (model s1)
    then (settled (rejected "Model/processor not loaded"),
          set_inferenceLock false s1)
    else
      match sync_error with
      | Some e => (settled (rejected e), set_inferenceLock false s1)
      | None => (await_processor, s1)
      end.

(** The call resumes from [await this.processor(...)]. *)
Definition processor_settles (error : option string) (s : Service)
  : Call * Service :=
  match error with
  | Some e => (settled (rejected e), set_inferenceLock false s)
  | None => (await_generate, s)
  end.

(** [streamed.trim() || batch_decode(...)[0].trim()] *)
Definition finalText (streamed : string) (decoded : option string)
  : Outcome :=
  if String.eqb (trim streamed) "" then
    match decoded with
    | Some d => resolved (trim d)
    | None => rejected "batch_decode"
    end
  else resolved (trim streamed).

(** The call resumes from [await this.model.generate(...)]. Both the
    normal exit and the [catch] clause release the lock. *)
Definition generate_settles (g : Generation) (s : Service)
  : Call * Service :=
  match g with
  | generated streamed decoded =>
      (settled (finalText streamed decoded), set_inferenceLock false s)
  | generation_failed e =>
      (settled (rejected e), set_inferenceLock false s)
  end.

(** *** The event loop

    One thread runs the calls: each step is either a new invocation,
    which runs up to its first [await], or the resumption of a
    suspended call. [loadModel] may fill in [processor] and [model] in
    between. *)
Inductive Event :=
| ev_call (sync_error : option string)
| ev_processor (i : nat) (error : option string)
| ev_generate (i : nat) (g : Generation)
| ev_processor_loaded
| ev_model_loaded.

Record System := {
  service : Service;
  calls : list Call      (* one entry per invocation, in call order *)
}.

Definition start (s : Service) : System :=
  {| service := s; calls := [] |}.

Definition step (sys : System) (e : Event) : System :=
  match e with
  | ev_call sync_error =>
      let (c, s) := runInference sync_error (service sys) in
      {| service := s; calls := calls sys ++ [c] |}
  | ev_processor i error =>
      match calls sys !! i with
      | Some await_processor =>
          let (c, s) := processor_settles error (service sys) in
          {| service := s; calls := <[i := c]> (calls sys) |}
      | _ => sys
      end
  | ev_generate i g =>
      match calls sys !! i with
      | Some await_generate =>
          let (c, s) := generate_settles g (service sys) in
          {| service := s; calls := <[i := c]> (calls sys) |}
      | _ => sys
      end
  | ev_processor_loaded =>
      {| service := {| processor := true; model := model (service sys);
                       inferenceLock := inferenceLock (service sys) |};
         calls := calls sys |}
  | ev_model_loaded =>
      {| service := {| processor := processor (service sys); model := true;
                       inferenceLock := inferenceLock (service sys) |};
         calls := calls sys |}
  end.

Definition run (es : list Event) (sys : System) : System :=
  fold_left step es sys.

(** A call is in flight while it is suspended at an [await]. *)
Definition suspended (c : Call) : bool :=
  match c with
  | settled _ => false
  | _ => true
  end.

Definition in_flight (sys : System) : nat :=
  length (List.filter suspended (calls sys)).

(** A call that resolved with a non-empty text. *)
Definition non_empty (c : Call) : bool :=
  match c with
  | settled (resolved text) => negb (String.eqb text "")
  | _ => false
  end.

Definition non_empty_results (sys : System) : nat :=
  length (List.filter non_empty (calls sys)).

(** The lock is held exactly while one call is suspended. *)
Definition lock_counts (sys : System) : Prop :=
  in_flight sys = if inferenceLock (service sys) then 1 else 0.

(** What the call that holds the lock settles to, given how the
    processor and the generation end. *)
Definition completion (error : option string) (g : Generation) : Call :=
  match error with
  | Some e => settled (rejected e)
  | None =>
      match g with
      | generated streamed decoded => settled (finalText streamed decoded)
      | generation_failed e => settled (rejected e)
      end
  end.

(** A service whose model has been loaded. *)
Definition loaded : Service :=
  {| processor := true; model := true; inferenceLock := false |}.

End VLMService.

(** ** The VLM service: loading the model *)

Module ModelLoader.

(** The fields of the service that [loadModel] reads and writes.
    [processor] and [model] are [true] once they are non-null;
    [loadPromise] is the index of the promise it holds, if any. *)
Record Loader := {
  processor : bool;
  model : bool;
  isLoaded : bool;
  isLoading : bool;
  loadPromise : option nat
}.

(** [new VLMService()] *)
Definition new_VLMService : Loader :=
  {| processor := false; model := false; isLoaded := false;
     isLoading := false; loadPromise := None |}.

(** Where the asynchronous body of one load stands: suspended at one of
    its three [await]s, or settled. *)
Inductive Stage :=
| at_detect        (* await webgpuDetector.detect() *)
| at_processor     (* await AutoProcessor.from_pretrained(...) *)
| at_model         (* await AutoModelForImageTextToText.from_pretrained(...) *)
| fulfilled
| rejected (reason : string).

(** What one call of [loadModel] resolves with: at once, because the
    model is loaded, or with the outcome of a load promise. *)
Inductive Returned :=
| already_loaded
| promise (load : nat).

Record System := {
  loader : Loader;
  loads : list Stage;          (* one entry per load promise created *)
  returned : list Returned     (* one entry per call, in call order *)
}.

Definition start : System :=
  {| loader := new_VLMService; loads := []; returned := [] |}.

(** The [catch] and [finally] clauses of the load body. *)
Definition fail (i : nat) (reason : string) (sys : System) : System :=
  {| loader := {| processor := processor (loader sys);
                  model := model (loader sys);
                  isLoaded := isLoaded (loader sys);
                  isLoading := false; loadPromise := None |};
     loads := <[i := rejected reason]> (loads sys);
     returned := returned sys |}.

(** [loadModel(onProgress)]. [sync_error] is the error, if any, thrown
    by the load body before its first [await] (by the progress callback
    or by the call of [detect]): the body then runs its [catch] and
    [finally] clauses before [this.loadPromise] is assigned. *)
Definition loadModel (sync_error : option string) (sys : System) : System :=
  if isLoaded (loader sys) then
    {| loader := loader sys; loads := loads sys;
       returned := returned sys ++ [already_loaded] |}
  else
    match loadPromise (loader sys) with
    | Some p =>
        {| loader := loader sys; loads := loads sys;
           returned := returned sys ++ [promise p] |}
    | None =>
        let i := length (loads sys) in
        match sync_error with
        | None =>
            {| loader := {| processor := processor (loader sys);
                            model := model (loader sys);
                            isLoaded := false; isLoading := true;
                            loadPromise := Some i |};
               loads := loads sys ++ [at_detect];
               returned := returned sys ++ [promise i] |}
        | Some e =>
            {| loader := {| processor := processor (loader sys);
                            model := model (loader sys);
                            isLoaded := false; isLoading := false;
                            loadPromise := Some i |};
               loads := loads sys ++ [rejected e];
               returned := returned sys ++ [promise i] |}
        end
    end.

(** The load resumes from [await webgpuDetector.detect()]: a rejection,
    or [gpuInfo.supported]. *)
Definition detect_settles (i : nat) (answer : string + bool)
    (sys : System) : System :=
  match loads sys !! i with
  | Some at_detect =>
      match answer with
      | inr true =>
          {| loader := loader sys; loads := <[i := at_processor]> (loads sys);
             returned := returned sys |}
      | inr false =>
          fail i "WebGPU not supported on this device/browser" sys
      | inl e => fail i e sys
      end
  | _ => sys
  end.

(** The load resumes from the processor's [from_pretrained]. *)
Definition processor_settles (i : nat) (error : option string)
    (sys : System) : System :=
  match loads sys !! i with
  | Some at_processor =>
      match error with
      | None =>
          {| loader := {| processor := true; model := model (loader sys);
                          isLoaded := isLoaded (loader sys);
                          isLoading := isLoading (loader sys);
                          loadPromise := loadPromise (loader sys) |};
             loads := <[i := at_model]> (loads sys);
             returned := returned sys |}
      | Some e => fail i e sys
      end
  | _ => sys
  end.

(** The load resumes from the model's [from_pretrained]. *)
Definition model_settles (i : nat) (error : option string)
    (sys : System) : System :=
  match loads sys !! i with
  | Some at_model =>
      match error with
      | None =>
          {| loader := {| processor := processor (loader sys);
                          model := true; isLoaded := true;
                          isLoading := false; loadPromise := None |};
             loads := <[i := fulfilled]> (loads sys);
             returned := returned sys |}
      | Some e => fail i e sys
      end
  | _ => sys
  end.

(** [getLoadedState()] *)
Definition getLoadedState (sys : System) : bool * bool :=
  (isLoaded (loader sys), isLoading (loader sys)).

Inductive Event :=
| ev_loadModel (sync_error : option string)
| ev_detect (i : nat) (answer : string + bool)
| ev_processor (i : nat) (error : option string)
| ev_model (i : nat) (error : option string).

Definition step (sys : System) (e : Event) : System :=
  match e with
  | ev_loadModel sync_error => loadModel sync_error sys
  | ev_detect i answer => detect_settles i answer sys
  | ev_processor i error => processor_settles i error sys
  | ev_model i error => model_settles i error sys
  end.

Definition run (es : list Event) (sys : System) : System :=
  fold_left step es sys.

(** A load is pending while its body is suspended. *)
Definition pending (s : Stage) : bool :=
  match s with
  | at_detect | at_processor | at_model => true
  | _ => false
  end.

Definition pending_loads (sys : System) : nat :=
  length (List.filter pending (loads sys)).

(** What every run keeps: [isLoading] counts the pending loads (there
    is at most one), a pending load is the one [loadPromise] holds,
    [loadPromise] always refers to a promise that exists, a load that
    waits for the model has set the processor, and a loaded service has
    its processor and its model and no load pending. *)
Definition consistent (sys : System) : Prop :=
  pending_loads sys = (if isLoading (loader sys) then 1 else 0) /\
  (forall i s, loads sys !! i = Some s -> pending s = true ->
               loadPromise (loader sys) = Some i) /\
  (forall i, loadPromise (loader sys) = Some i -> i < length (loads sys)) /\
  (forall i, loads sys !! i = Some at_model ->
             processor (loader sys) = true) /\
  (isLoaded (loader sys) = true ->
   processor (loader sys) = true /\ model (loader sys) = true /\
   isLoading (loader sys) = false /\ loadPromise (loader sys) = None).

(** The calls of [loadModel] among the events. *)
Definition calls (es : list Event) : nat :=
  length (List.filter (fun e => match e with
                                | ev_loadModel _ => true
                                | _ => false
                                end) es).

(** The state left by a load body that threw before its first
    [await]: a settled promise is kept in [loadPromise]. *)
Definition wedged (i : nat) (sys : System) : Prop :=
  loadPromise (loader sys) = Some i /\
  isLoaded (loader sys) = false /\
  pending_loads sys = 0.

End ModelLoader.

(** ** The wiring in main.js *)

Module Main.

(** The initial state passed to [new StateMachine({...})]. *)
Definition initialState : StateMachine.PartialState :=
  {| StateMachine.p_viewState := Some StateMachine.v_permission;
     StateMachine.p_runtimeState := Some StateMachine.r_idle;
     StateMachine.p_loadingPhase := Some StateMachine.loading_wgpu;
     StateMachine.p_webcamStream := Some None;
     StateMachine.p_isVideoReady := Some false;
     StateMachine.p_hasWebGPU := Some true;
     StateMachine.p_error := Some None |}.

(** The callback registered with [onStreamEnded]: it turns the message
    of the webcam service into a STREAM_ENDED event. *)
Definition stream_ended_callback (errorMessage : string)
    (w : StateMachine.World) : bool * StateMachine.World :=
  StateMachine.dispatch "STREAM_ENDED"
    {| StateMachine.data_stream := None;
       StateMachine.data_message := None;
       StateMachine.data_technical := None;
       StateMachine.data_reason :=
         Some (or_default (Some errorMessage)
                 "The camera was disconnected or access was revoked.");
       StateMachine.data_error := None;
       StateMachine.data_code := None;
       StateMachine.data_recoverAction := None |}
    w.

End Main.

(** ** Concrete runs used as examples *)

Module Scenarios.
Import StateMachine.

(** [{ stream }] *)
Definition with_stream (m : MediaStream) : Payload :=
  {| data_stream := Some m; data_message := None; data_technical := None;
     data_reason := None; data_error := None; data_code := None;
     data_recoverAction := None |}.

(** [{ reason }] *)
Definition with_reason (r : string) : Payload :=
  {| data_stream := None; data_message := None; data_technical := None;
     data_reason := Some r; data_error := None; data_code := None;
     data_recoverAction := None |}.

(** [{ isVideoReady: true }] *)
Definition video_ready : PartialState :=
  {| p_viewState := None; p_runtimeState := None; p_loadingPhase := None;
     p_webcamStream := None; p_isVideoReady := Some true;
     p_hasWebGPU := None; p_error := None |}.

(** A store in which the camera has already produced two streams of one
    live track each. *)
Definition two_streams : Heap :=
  {| apps := []; errs := []; acts := []; media := [[live]; [live]] |}.

(** The welcome view reached on a machine built without WebGPU. *)
Definition welcome_without_webgpu : World :=
  dispatch_all
    [("PERMISSION_GRANTED", with_stream 0)]
    (new_StateMachine
       {| p_viewState := None; p_runtimeState := None;
          p_loadingPhase := None; p_webcamStream := None;
          p_isVideoReady := None; p_hasWebGPU := Some false;
          p_error := None |}
       two_streams).

(** The welcome view of the application. *)
Definition welcome : World :=
  dispatch_all [("PERMISSION_GRANTED", with_stream 0)]
    (new_StateMachine Main.initialState two_streams).

(** The application brought to live captioning: permission, start,
    model loading, the video element reporting ready, warm-up. *)
Definition to_runtime : list Op :=
  [op_dispatch "PERMISSION_GRANTED" (with_stream 0);
   op_dispatch "START" no_data;
   op_dispatch "WGPU_READY" no_data;
   op_setState video_ready;
   op_dispatch "MODEL_LOADED" no_data;
   op_dispatch "WARMUP_COMPLETE" no_data].

Definition running : World :=
  perform_all to_runtime (new_StateMachine Main.initialState two_streams).

(** The camera is lost while captioning. *)
Definition recovering : World :=
  snd (Main.stream_ended_callback
         "Camera disconnected and auto-recovery failed" running).

(** The error view left by RETRY, the first stream still held. *)
Definition retried : World :=
  dispatch_all
    [("FATAL_ERROR", no_data); ("RETRY", no_data)] welcome.

(** The permission view after the user has denied the camera. *)
Definition denied : World :=
  dispatch_all [("PERMISSION_DENIED", no_data)]
    (new_StateMachine Main.initialState two_streams).

(** The loading view after the model failed to load. *)
Definition model_failed : World :=
  dispatch_all
    [("PERMISSION_GRANTED", with_stream 0); ("START", no_data);
     ("MODEL_FAILED", no_data)]
    (new_StateMachine Main.initialState two_streams).

(** [{ isVideoReady: true }] as the constructor's argument. *)
Definition video_ready_at_start : PartialState :=
  {| p_viewState := None; p_runtimeState := None; p_loadingPhase := None;
     p_webcamStream := None; p_isVideoReady := Some true;
     p_hasWebGPU := None; p_error := None |}.

(** Dispatches that bring such a machine to the runtime view, lose the
    stream there, and pause. *)
Definition lost_then_paused : list (string * Payload) :=
  [("PERMISSION_GRANTED", with_stream 0); ("START", no_data);
   ("MODEL_LOADED", no_data); ("WARMUP_COMPLETE", no_data);
   ("STREAM_ENDED", with_reason "unplugged"); ("PAUSE", no_data)].

(** [const snapshot = getState()] taken while recovering. *)
Definition snapshot : loc := fst (getState recovering).
Definition after_getState : World := snd (getState recovering).

End Scenarios.

(** ** The webcam service: releasing and switching the camera *)

Module CameraDevices.
Import WebcamService.

(** The service together with the tracks of the streams the platform
    has handed out (a stream is the index of its tracks). *)
Record Devices := {
  service : Service;
  tracks : list (list ReadyState)
}.

(** [stream.getTracks().forEach(track => track.stop())] *)
Definition stop_tracks (stream : MediaStream)
    (ts : list (list ReadyState)) : list (list ReadyState) :=
  alter (map (fun _ => ended)) stream ts.

(** Every track of the stream has [readyState == 'ended']. *)
Definition stopped (stream : MediaStream) (ts : list (list ReadyState))
  : Prop :=
  forall rs, ts !! stream = Some rs -> Forall (fun r => r = ended) rs.

(** [stopStream()] *)
Definition stopStream (d : Devices) : Devices :=
  match currentStream (service d) with
  | Some stream =>
      {| service := set_currentStream None (service d);
         tracks := stop_tracks stream (tracks d) |}
  | None => d
  end.

(** [getStream()] *)
Definition getStream (d : Devices) : option MediaStream :=
  currentStream (service d).


(** The listener [switchCamera] puts on the tracks of the new stream:
    it notifies, and does not try to recover. *)
Definition on_switched_track_ended (s : Service) : Service :=
  if onStreamEndedCallback s
  then notify "Camera disconnected or access was revoked" s
  else s.

End CameraDevices.

(** ** What the application does with the machine (main.js and the
       loading screen) *)

Module Application.
Import StateMachine.

(** The two ways main.js changes the machine: a dispatch, made from a
    component callback, and the 'canplay' listener of the video element,
    which calls [setState({ isVideoReady: true })]. *)
Inductive Action :=
| act_dispatch (ev : string) (data : Payload)
| act_canplay.

Definition op_of (a : Action) : Op :=
  match a with
  | act_dispatch ev data => op_dispatch ev data
  | act_canplay =>
      op_setState
        {| p_viewState := None; p_runtimeState := None;
           p_loadingPhase := None; p_webcamStream := None;
           p_isVideoReady := Some true; p_hasWebGPU := None;
           p_error := None |}
  end.

Definition run (acts : list Action) (w : World) : World :=
  perform_all (map op_of acts) w.

(** The button of the welcome screen: [detected] is the module-level
    [hasWebGPU] of main.js, set by the early GPU detection. *)
Definition welcome_start (detected : bool) (w : World) : bool * World :=
  if detected then dispatch "START" no_data w
  else dispatch "START_FALLBACK" no_data w.

(** The events the loading screen sends when every phase succeeds:
    three through [onPhaseChange], then [onComplete], which main.js
    turns into WARMUP_COMPLETE once more. *)
Definition loading_succeeds : list (string * Payload) :=
  [("WGPU_READY", no_data); ("MODEL_LOADED", no_data);
   ("WARMUP_COMPLETE", no_data); ("WARMUP_COMPLETE", no_data)].

(** [{ error: error.message }] *)
Definition with_error (msg : string) : Payload :=
  {| data_stream := None; data_message := None; data_technical := None;
     data_reason := None; data_error := Some msg; data_code := None;
     data_recoverAction := None |}.

(** The events the loading screen sends when it fails after [phases]
    phases (0: no [navigator.gpu]; 1: the model does not load; 2: the
    warm-up fails): the phase events so far, then [onError], which
    main.js turns into MODEL_FAILED. *)
Definition loading_fails (phases : nat) (msg : string)
  : list (string * Payload) :=
  take phases [("WGPU_READY", no_data); ("MODEL_LOADED", no_data)]
  ++ [("MODEL_FAILED", with_error msg)].

(** *** The effect of a dispatch on the live state, as a function

    [accepts] is the value [dispatch] returns and [after] the live state
    it leaves, both computed from the live state alone; the store is
    only needed to number the records an action creates. *)

Definition accepts (ev : string) (data : Payload) (s : AppState) : bool :=
  match find_transition ev (viewState s) with
  | Some t => negb (guard_fails t s data)
  | None => false
  end.

Definition after (ev : string) (data : Payload) (s : AppState) (h : Heap)
  : AppState :=
  match find_transition ev (viewState s) with
  | Some t =>
      if guard_fails t s data then s
      else
        let s1 := snd (run_action t data h s) in
        if bool_decide (to t = viewState s) then s1
        else set_viewState (to t) s1
  | None => s
  end.

End Application.

(** ** The webcam service: explaining a camera error *)

Module CameraErrors.

(** What [getCameraErrorMessage] reads from the platform: the outcome of
    its three tests on [navigator.userAgent], and
    [window.isSecureContext]. *)
Record Browser := {
  isSafari : bool;
  isiOS : bool;
  isFirefox : bool;
  isSecureContext : bool
}.

(** The error it is given, an [Error] or a [DOMException]. The empty
    string stands for a property that is missing or empty: [||] treats
    both alike. *)
Record CameraError := {
  name : string;
  error_message : string
}.

Record ErrorInfo := {
  title : string;
  message : string;
  steps : list string;
  technical : string
}.

(** [a || b] on strings *)
Definition or_else (a b : string) : string :=
  if String.eqb a "" then b else a.

(** [s.includes(sub)] *)
Fixpoint includes (s sub : string) : bool :=
  String.prefix sub s
  || match s with
     | EmptyString => false
     | String _ rest => includes rest sub
     end.

(** The double quote, for the texts that contain one. *)
Definition dq : string := String (Ascii.ascii_of_nat 34) EmptyString.

Definition denied_on_safari : ErrorInfo :=
  {| title := "🚫 Camera Access Denied";
     message := "Safari/iOS detected. To enable camera:";
     steps := ["1. Go to Settings → Safari → Camera";
               "2. Change to " +:+ dq +:+ "Ask" +:+ dq +:+ " or "
                 +:+ dq +:+ "Allow" +:+ dq;
               "3. Reload this page";
               "4. Tap " +:+ dq +:+ "Allow" +:+ dq +:+ " when prompted"];
     technical := "NotAllowedError - User denied permission" |}.

Definition denied : ErrorInfo :=
  {| title := "🚫 Camera Access Denied";
     message := "Please allow camera access in your browser settings:";
     steps := ["1. Click the camera icon in the address bar";
               "2. Select " +:+ dq +:+ "Allow" +:+ dq;
               "3. Refresh this page"];
     technical := "NotAllowedError - User denied permission" |}.

Definition not_found : ErrorInfo :=
  {| title := "📷 No Camera Detected";
     message := "No camera was found on your device.";
     steps := ["• Check if your camera is connected";
               "• Try plugging in an external webcam";
               "• Restart your browser"];
     technical := "NotFoundError - No video input devices detected" |}.

Definition not_readable : ErrorInfo :=
  {| title := "⚠️ Camera In Use";
     message := "Camera is already being used by another app.";
     steps := ["• Close other apps using the camera (Zoom, Skype, etc.)";
               "• Close other browser tabs with camera access";
               "• Restart your browser if the issue persists"];
     technical := "NotReadableError - Camera hardware in use" |}.

Definition overconstrained_on_ios : ErrorInfo :=
  {| title := "📱 Camera Constraints Not Supported";
     message := "iOS detected - trying basic camera mode.";
     steps := ["• Your device may not support the requested camera resolution";
               "• Try switching to the other camera (front/back)";
               "• Update iOS to the latest version"];
     technical :=
       "OverconstrainedError - Requested constraints not satisfiable on iOS" |}.

Definition overconstrained : ErrorInfo :=
  {| title := "⚙️ Camera Settings Not Supported";
     message := "Your camera doesn't support the requested settings.";
     steps := ["• Try a different camera if available";
               "• Update your browser to the latest version";
               "• Check camera driver updates"];
     technical := "OverconstrainedError - Constraints not satisfiable" |}.

Definition insecure (b : Browser) : ErrorInfo :=
  {| title := "🔒 Insecure Connection";
     message := "Camera access requires HTTPS or localhost.";
     steps := ["• Use HTTPS (https://...) instead of HTTP";
               "• Or use on localhost for testing";
               if isiOS b then "• iOS requires HTTPS for all camera access"
               else "• Mobile browsers require HTTPS"];
     technical := "SecurityError - Camera requires secure context (HTTPS)" |}.

Definition aborted : ErrorInfo :=
  {| title := "⏸️ Camera Access Interrupted";
     message := "Camera access was interrupted.";
     steps := ["• Another app may have taken control of the camera";
               "• Try refreshing the page";
               "• Check if camera permissions were revoked"];
     technical := "AbortError - Operation aborted" |}.

(** The generic explanation; [.filter(Boolean)] drops the empty step. *)
Definition generic (b : Browser) (errorName : string) (error : CameraError)
  : ErrorInfo :=
  {| title := "❌ Camera Error";
     message := "An unexpected error occurred accessing the camera.";
     steps :=
       List.filter (fun step => negb (String.eqb step ""))
         ["• Refresh the page and try again";
          "• Check browser console for details";
          "• Try a different browser";
          if isFirefox b
          then "• Firefox may require camera permissions in about:preferences"
          else ""];
     technical :=
       errorName +:+ ": "
       +:+ or_else (error_message error) "No additional details" |}.

(** [getCameraErrorMessage(error)] *)
Definition getCameraErrorMessage (b : Browser) (error : CameraError)
  : ErrorInfo :=
  let errorName := or_else (name error)
                     (or_else (error_message error) "Unknown") in
  if String.eqb errorName "NotAllowedError"
     || includes errorName "Permission denied"
  then if isiOS b || isSafari b then denied_on_safari else denied
  else if String.eqb errorName "NotFoundError"
          || includes errorName "not found"
  then not_found
  else if String.eqb errorName "NotReadableError"
          || includes errorName "not readable"
  then not_readable
  else if String.eqb errorName "OverconstrainedError"
          || includes errorName "constraint"
  then if isiOS b then overconstrained_on_ios else overconstrained
  else if String.eqb errorName "SecurityError" || negb (isSecureContext b)
  then insecure b
  else if String.eqb errorName "AbortError"
  then aborted
  else generic b errorName error.

(** The error [requestWebcamPermission] throws when every request was
    rejected: [new Error(errorInfo.message)], whose name is 'Error'. *)
Definition enrichedError (errorInfo : ErrorInfo) : CameraError :=
  {| name := "Error"; error_message := message errorInfo |}.

(** main.js, the error callback of the permission dialog:
    [{ message: errorInfo.message, technical: errorInfo.technical }]
    dispatched as PERMISSION_DENIED. *)
Definition permission_denied (b : Browser) (error : CameraError)
    (w : StateMachine.World) : bool * StateMachine.World :=
  let errorInfo := getCameraErrorMessage b error in
  StateMachine.dispatch "PERMISSION_DENIED"
    {| StateMachine.data_stream := None;
       StateMachine.data_message := Some (message errorInfo);
       StateMachine.data_technical := Some (technical errorInfo);
       StateMachine.data_reason := None;
       StateMachine.data_error := None;
       StateMachine.data_code := None;
       StateMachine.data_recoverAction := None |}
    w.

End CameraErrors.

(** ** The state manager (class StateManager) *)

Module StateManager.

(** State objects are plain objects with string keys. The class never
    writes into an object it holds ([setState] builds a new one), so an
    object is modelled by its own properties.

    The values of the properties are left open: [strict_eq] is
    JavaScript's [===] on them, and [inherited key] is what reading
    [key] gives on an object without an own property of that name
    ([undefined], or what [Object.prototype] holds). *)
Abbreviation Obj Value := (gmap string Value) (only parsing).

Section Values.

Variable Value : Type.
Variable strict_eq : Value -> Value -> bool.
Variable inherited : string -> Value.

(** The detail of a 'statechange' event *)
Record Detail := {
  state : Obj Value;
  prevState : Obj Value;
  updates : Obj Value
}.

(** [this.state] and the events dispatched so far *)
Record Manager := {
  this_state : Obj Value;
  emitted : list Detail
}.

(** [new StateManager(initialState)] *)
Definition new_StateManager (initialState : Obj Value) : Manager :=
  {| this_state := initialState; emitted := [] |}.

(** [object[key]] *)
Definition get (object : Obj Value) (key : string) : Value :=
  match object !! key with
  | Some v => v
  | None => inherited key
  end.

(** [Object.keys(object)] *)
Definition keys (object : Obj Value) : list string :=
  map fst (map_to_list object).

(** [Object.keys(updates).some(key => this.state[key] !== updates[key])] *)
Definition hasChanges (current updates : Obj Value) : bool :=
  existsb (fun key => negb (strict_eq (get current key) (get updates key)))
    (keys updates).

(** [setState(updates)]: the object it returns and the manager it
    leaves. [{ ...this.state, ...updates }] is the union that prefers
    [updates]. *)
Definition setState (updates : Obj Value) (m : Manager)
  : Obj Value * Manager :=
  let prevState := this_state m in
  let newState := updates ∪ this_state m in
  if hasChanges (this_state m) updates
  then (newState,
        {| this_state := newState;
           emitted := emitted m
             ++ [{| state := newState; prevState := prevState;
                    updates := updates |}] |})
  else (this_state m, m).

(** [getState()] *)
Definition getState (m : Manager) : Obj Value := this_state m.

(** A sequence of [setState] calls *)
Definition run (calls : list (Obj Value)) (m : Manager) : Manager :=
  fold_left (fun m updates => snd (setState updates m)) calls m.

End Values.

Arguments state {Value}.
Arguments prevState {Value}.
Arguments updates {Value}.
Arguments this_state {Value}.
Arguments emitted {Value}.
Arguments new_StateManager {Value}.
Arguments get {Value}.
Arguments keys {Value}.
Arguments hasChanges {Value}.
Arguments setState {Value}.
Arguments getState {Value}.
Arguments run {Value}.

(** A fragment of JavaScript's values, for examples: [NaN] is the one
    value that is not strictly equal to itself. *)
Inductive Primitive :=
| undefined
| number (n : Z)
| NaN
| text (s : string).

Definition strict_eq (a b : Primitive) : bool :=
  match a, b with
  | undefined, undefined => true
  | number x, number y => Z.eqb x y
  | text s, text t => String.eqb s t
  | _, _ => false
  end.

End StateManager.

(** * Properties of the state machine *)

Module MachineProps.
Import StateMachine Scenarios.

Lemma find_all_false {A} (f : A -> bool) (l : list A) :
  (forall x, In x l -> f x = false) -> List.find f l = None.
Proof.
  induction l as [|a l IH]; intros H; [reflexivity|].
  cbn. rewrite (H a (or_introl eq_refl)). apply IH.
  intros x Hx. apply H. now right.
Qed.

(** Every action of the table only allocates error records and recover
    actions: the state objects and the media tracks are left alone. *)
Lemma run_action_frame t data h s h' s' :
  In t defineTransitions ->
  run_action t data h s = (h', s') ->
  apps h' = apps h /\ media h' = media h.
Proof.
  intros Hin Hrun. cbn in Hin.
  repeat (destruct Hin as [<- | Hin]); try contradiction;
    cbn in Hrun; try (injection Hrun as <- <-; now split).
  all: unfold fatal_error_action in Hrun;
    destruct (data_recoverAction data); cbn in Hrun;
    injection Hrun as <- <-; now split.
Qed.


Lemma dispatch_spec ev data w :
  dispatch ev data w = (false, w) \/
  exists t h2 s1,
    In t defineTransitions /\
    matches ev (viewState (this_state w)) t = true /\
    guard_fails t (this_state w) data = false /\
    run_action t data (snd (alloc_app (this_state w) (heap w)))
      (this_state w) = (h2, s1) /\
    dispatch ev data w =
      (true,
       {| heap := write_app (state w)
                    (if bool_decide (to t = viewState (this_state w))
                     then s1 else set_viewState (to t) s1) h2;
          state := state w;
          emitted := emitted w
                     ++ [dispatch_detail (state w) (length (apps (heap w)))
                           ev data] |}).
Proof.
  unfold dispatch, find_transition.
  destruct (List.find _ defineTransitions) as [t|] eqn:Hfind; [|now left].
  apply find_some in Hfind as [Hin Hm].
  destruct (guard_fails t (this_state w) data) eqn:Hg; [now left|].
  right. cbn.
  destruct (run_action t data _ (this_state w)) as [h2 s1] eqn:Hrun.
  exists t, h2, s1. repeat split; assumption.
Qed.

(** The state object is still there after a dispatch, and an applied
    one leaves in it what the transition computed. *)
Lemma dispatch_keeps_state ev data w :
  state w < length (apps (heap w)) ->
  state (snd (dispatch ev data w)) = state w /\
  state w < length (apps (heap (snd (dispatch ev data w)))).
Proof.
  intros Hlt.
  destruct (dispatch_spec ev data w)
    as [-> | (t & h2 & s1 & Hin & _ & _ & Hrun & ->)]; [now split|].
  apply run_action_frame in Hrun as [Happs _]; [|assumption].
  cbn. split; [reflexivity|].
  rewrite length_insert, Happs. cbn. rewrite length_app. lia.
Qed.


(** ** Rejected dispatches *)

(** C2. No-op on unmatched dispatch: when no rule of the table matches
    the event in the current view state (neither by its exact source nor
    by the wildcard), [dispatch] returns [false] and hands back the very
    same world: the store, hence the whole live state with its
    [viewState], [runtimeState] and [error], is unchanged, and no
    'statechange' event has been added. *)
Theorem dispatch_unmatched_noop (ev : string) (data : Payload) (w : World) :
  (forall t, In t defineTransitions ->
             matches ev (viewState (this_state w)) t = false) ->
  let (applied, w') := dispatch ev data w in
  applied = false /\ w' = w /\
  viewState (this_state w') = viewState (this_state w) /\
  runtimeState (this_state w') = runtimeState (this_state w) /\
  error (this_state w') = error (this_state w) /\
  this_error w' = this_error w /\
  emitted w' = emitted w.
Proof.
  intros Hnone. unfold dispatch, find_transition.
  rewrite (find_all_false _ _ Hnone). repeat split; reflexivity.
Qed.

Lemma dispatch_unmatched_noop_witness :
  let w := new_StateMachine no_updates empty_heap in
  (forall t, In t defineTransitions ->
             matches "START" (viewState (this_state w)) t = false) /\
  dispatch "START" no_data w = (false, w).
Proof.
  assert (H : forall t, In t defineTransitions ->
            matches "START"
              (viewState (this_state (new_StateMachine no_updates empty_heap)))
              t = false).
  { intros t Hin. cbn in Hin.
    repeat (destruct Hin as [<- | Hin]); try contradiction; reflexivity. }
  split; [exact H|].
  pose proof (dispatch_unmatched_noop "START" no_data _ H) as Hd.
  destruct (dispatch "START" no_data _) as [applied w'].
  destruct Hd as (-> & -> & _). reflexivity.
Defined.

(** C5. Guard rejection of START: in the welcome view without WebGPU,
    [dispatch('START')] returns [false] and leaves the world as it was;
    the view is still 'welcome', not 'loading'. *)
Theorem start_without_webgpu_rejected (data : Payload) (w : World) :
  viewState (this_state w) = v_welcome ->
  hasWebGPU (this_state w) = false ->
  dispatch "START" data w = (false, w) /\
  viewState (this_state (snd (dispatch "START" data w))) = v_welcome /\
  viewState (this_state (snd (dispatch "START" data w))) <> v_loading.
Proof.
  intros Hview Hgpu.
  assert (Hd : dispatch "START" data w = (false, w)).
  { unfold dispatch. set (s := this_state w) in *. clearbody s.
    rewrite Hview.
    change (find_transition "START" v_welcome)
      with (nth_error defineTransitions 2).
    cbn. rewrite Hgpu. reflexivity. }
  rewrite Hd. cbn. rewrite Hview. repeat split; congruence.
Qed.

Lemma start_without_webgpu_rejected_witness :
  viewState (this_state welcome_without_webgpu) = v_welcome /\
  hasWebGPU (this_state welcome_without_webgpu) = false /\
  dispatch "START" no_data welcome_without_webgpu
  = (false, welcome_without_webgpu).
Proof.
  split; [reflexivity|]. split; [reflexivity|].
  apply (start_without_webgpu_rejected no_data welcome_without_webgpu);
    reflexivity.
Defined.

(** ** What an applied dispatch leaves behind *)

Lemma matches_from ev v t :
  matches ev v t = true ->
  event t = ev /\ (from t = from_state v \/ from t = from_any).
Proof.
  unfold matches. intros [He Hf]%andb_true_iff.
  apply String.eqb_eq in He. split; [assumption|].
  destruct (from t) as [v'|]; [left|now right].
  apply bool_decide_eq_true in Hf. now subst.
Qed.

Lemma dispatch_result ev data w :
  state w < length (apps (heap w)) ->
  dispatch ev data w = (false, w) \/
  exists t h2 s1,
    In t defineTransitions /\
    matches ev (viewState (this_state w)) t = true /\
    guard_fails t (this_state w) data = false /\
    run_action t data (snd (alloc_app (this_state w) (heap w)))
      (this_state w) = (h2, s1) /\
    fst (dispatch ev data w) = true /\
    this_state (snd (dispatch ev data w))
    = (if bool_decide (to t = viewState (this_state w))
       then s1 else set_viewState (to t) s1).
Proof.
  intros Hlt.
  destruct (dispatch_spec ev data w)
    as [-> | (t & h2 & s1 & Hin & Hm & Hg & Hrun & ->)]; [now left|].
  right. exists t, h2, s1. repeat split; try assumption.
  apply run_action_frame in Hrun as [Happs _]; [|assumption].
  unfold this_state at 1. cbn.
  apply list_lookup_total_insert_eq.
  rewrite Happs. cbn. rewrite length_app. lia.
Qed.

Lemma find_fatal_error v :
  find_transition "FATAL_ERROR" v = nth_error defineTransitions 12.
Proof. destruct v; reflexivity. Qed.

(** ** canTransitionTo and the wildcard rule *)

(** C10. [canTransitionTo] looks at exact sources only: in a view state
    from which no rule with that exact source leads to 'error',
    [canTransitionTo('error')] is [false], although
    [dispatch('FATAL_ERROR')] is applied from that same state and moves
    the view to 'error'. *)
Theorem canTransitionTo_ignores_wildcard (data : Payload) (w : World) :
  state w < length (apps (heap w)) ->
  (forall t, In t defineTransitions ->
             from t = from_state (viewState (this_state w)) ->
             to t <> v_error) ->
  canTransitionTo v_error w = false /\
  fst (dispatch "FATAL_ERROR" data w) = true /\
  viewState (this_state (snd (dispatch "FATAL_ERROR" data w))) = v_error.
Proof.
  intros Hlt Hexact. split.
  - unfold canTransitionTo.
    destruct (viewState (this_state w)) eqn:Hv; try reflexivity.
    + exfalso.
      eapply Hexact; [do 1 right; left; reflexivity | reflexivity..].
    + exfalso.
      eapply Hexact; [do 11 right; left; reflexivity | reflexivity..].
  - assert (Hd : exists h s,
               dispatch "FATAL_ERROR" data w
               = (true, {| heap := write_app (state w) s h;
                           state := state w;
                           emitted := emitted w
                             ++ [dispatch_detail (state w)
                                   (length (apps (heap w)))
                                   "FATAL_ERROR" data] |})
               /\ viewState s = v_error
               /\ length (apps h) = S (length (apps (heap w)))).
    { unfold dispatch. rewrite find_fatal_error. cbn.
      unfold fatal_error_action.
      destruct (data_recoverAction data); cbn;
        case_bool_decide; eexists _, _; (split; [reflexivity|]);
        cbn; rewrite ?length_app; cbn; split; (congruence || lia). }
    destruct Hd as (h & s & -> & Hs & Hlen). cbn. split; [reflexivity|].
    unfold this_state. cbn.
    rewrite list_lookup_total_insert_eq by lia. assumption.
Qed.

Lemma canTransitionTo_ignores_wildcard_witness :
  state welcome < length (apps (heap welcome)) /\
  (forall t, In t defineTransitions ->
             from t = from_state (viewState (this_state welcome)) ->
             to t <> v_error) /\
  canTransitionTo v_error welcome = false /\
  fst (dispatch "FATAL_ERROR" no_data welcome) = true /\
  viewState (this_state (snd (dispatch "FATAL_ERROR" no_data welcome)))
  = v_error.
Proof.
  assert (Hlt : state welcome < length (apps (heap welcome)))
    by (vm_compute; lia).
  assert (Hexact : forall t, In t defineTransitions ->
             from t = from_state (viewState (this_state welcome)) ->
             to t <> v_error).
  { change (viewState (this_state welcome)) with v_welcome.
    intros t Hin. cbn in Hin.
    repeat (destruct Hin as [<- | Hin]); try contradiction;
      cbn; congruence. }
  split; [exact Hlt|]. split; [exact Hexact|].
  exact (canTransitionTo_ignores_wildcard no_data welcome Hlt Hexact).
Defined.

(** ** The error-presence invariant *)

(** C3. The table breaks the error-presence invariant in the runtime
    view. Take the machine built by [new StateMachine({ isVideoReady:
    true })] and dispatch PERMISSION_GRANTED, START, MODEL_LOADED,
    WARMUP_COMPLETE and STREAM_ENDED: it is in the runtime view,
    recovering, with a STREAM_LOST error, and the invariant holds. PAUSE
    is then applied: it overwrites the runtime state with 'paused' and
    keeps the error, so [error] is non-null although the view is not
    'error' and the runtime state is neither 'recovering' nor 'failed'.
    RESUME does the same with 'running'. After the PAUSE the machine's
    own recovery event, STREAM_RECOVERED, is rejected by its guard, so
    the rule that would clear the error can no longer be applied. The
    same happens on the application's path, where the video is reported
    ready by [setState]. *)
Theorem error_presence_lost_after_pause :
  let lost :=
    dispatch_all (take 5 lost_then_paused)
      (new_StateMachine video_ready_at_start two_streams) in
  let paused := dispatch_all lost_then_paused
                  (new_StateMachine video_ready_at_start two_streams) in
  let resumed := snd (dispatch "RESUME" no_data lost) in
  (viewState (this_state lost) = v_runtime /\
   runtimeState (this_state lost) = r_recovering /\
   error_presence (this_state lost)) /\
  (paused = snd (dispatch "PAUSE" no_data lost) /\
   fst (dispatch "PAUSE" no_data lost) = true) /\
  (viewState (this_state paused) = v_runtime /\
   runtimeState (this_state paused) = r_paused /\
   this_error paused
   = Some {| code := "STREAM_LOST"; message := "unplugged";
             technical := None; recoverAction := Some 0 |} /\
   ~ error_presence (this_state paused)) /\
  (fst (dispatch "RESUME" no_data lost) = true /\
   runtimeState (this_state resumed) = r_running /\
   error (this_state resumed) <> None /\
   ~ error_presence (this_state resumed)) /\
  dispatch "STREAM_RECOVERED" (with_stream 1) paused = (false, paused) /\
  ~ error_presence
      (this_state (snd (dispatch "PAUSE" no_data recovering))).
Proof.
  cbn zeta.
  assert (Hbroken : forall s,
            error s <> None -> viewState s = v_runtime ->
            runtimeState s = r_paused \/ runtimeState s = r_running ->
            ~ error_presence s).
  { intros s He Hv Hr [H _].
    destruct (H He) as [F | [F | F]]; destruct Hr; congruence. }
  split.
  { split; [vm_compute; reflexivity|].
    split; [vm_compute; reflexivity|].
    split; [intros _; right; left; vm_compute; reflexivity|].
    intros _. vm_compute. discriminate. }
  split; [split; vm_compute; reflexivity|].
  split.
  { split; [vm_compute; reflexivity|].
    split; [vm_compute; reflexivity|].
    split; [vm_compute; reflexivity|].
    apply Hbroken;
      [vm_compute; discriminate | vm_compute; reflexivity
      | left; vm_compute; reflexivity]. }
  split.
  { split; [vm_compute; reflexivity|].
    split; [vm_compute; reflexivity|].
    split; [vm_compute; discriminate|].
    apply Hbroken;
      [vm_compute; discriminate | vm_compute; reflexivity
      | right; vm_compute; reflexivity]. }
  split; [vm_compute; reflexivity|].
  apply Hbroken;
    [vm_compute; discriminate | vm_compute; reflexivity
    | left; vm_compute; reflexivity].
Qed.

(** Once the video element has reported ready through [setState], the
    runtime view is reachable in the application, and PAUSE while
    recovering overwrites [runtimeState] and keeps the error: the state
    has an error although it is neither in the error view nor
    recovering or failed. *)
Example error_presence_with_setState :
  let s := this_state (snd (dispatch "PAUSE" no_data recovering)) in
  viewState s = v_runtime /\ runtimeState s = r_paused /\
  error s = Some 0 /\ ~ error_presence s.
Proof.
  repeat split; try reflexivity.
  intros [H _].
  assert (E : error (this_state (snd (dispatch "PAUSE" no_data recovering)))
              <> None) by (vm_compute; discriminate).
  destruct (H E) as [F|[F|F]]; vm_compute in F; discriminate.
Qed.

(** *** What the table does keep *)

Lemma accounted_spec s :
  accounted s ->
  (viewState s = v_error \/ runtimeState s = r_recovering
   \/ runtimeState s = r_failed -> error s <> None) /\
  (error s <> None -> viewState s = v_error \/ viewState s = v_runtime) /\
  (viewState s <> v_runtime -> error_presence s) /\
  (runtimeState s = r_recovering -> viewState s = v_runtime) /\
  (runtimeState s = r_failed -> viewState s = v_error).
Proof.
  unfold accounted, error_presence.
  destruct s as [v r lp ws vr gpu e]. cbn.
  destruct v; intros H; repeat split; intros; intuition congruence.
Qed.

Lemma transition_keeps_accounted t ev data h s h' s1 :
  In t defineTransitions ->
  matches ev (viewState s) t = true ->
  guard_fails t s data = false ->
  run_action t data h s = (h', s1) ->
  accounted s ->
  accounted (if bool_decide (to t = viewState s) then s1
             else set_viewState (to t) s1).
Proof.
  intros Hin Hm Hg Hrun Hs.
  apply matches_from in Hm as [_ Hfrom].
  destruct s as [v r lp ws vr gpu e]. cbn in Hs.
  cbn in Hin.
  repeat (destruct Hin as [<- | Hin]); try contradiction;
    cbn in Hfrom, Hg, Hrun;
    (destruct Hfrom as [Hfrom | Hfrom]; try discriminate);
    try (injection Hfrom as <-); try discriminate Hg;
    try (unfold fatal_error_action in Hrun;
         destruct (data_recoverAction data); cbn in Hrun);
    injection Hrun as <- <-; cbn;
    repeat case_bool_decide; try congruence; cbn;
    try (destruct v; cbn in Hs);
    unfold accounted in *; cbn in *; intuition congruence.
Qed.

Lemma dispatch_keeps_accounted ev data w :
  state w < length (apps (heap w)) ->
  accounted (this_state w) ->
  accounted (this_state (snd (dispatch ev data w))).
Proof.
  intros Hlt Hh.
  destruct (dispatch_result ev data w Hlt)
    as [-> | (t & h2 & s1 & Hin & Hm & Hg & Hrun & _ & ->)]; [assumption|].
  eapply transition_keeps_accounted; eassumption.
Qed.

(** ** Streams and their tracks *)

Lemma dispatch_media ev data w :
  media (heap (snd (dispatch ev data w))) = media (heap w).
Proof.
  destruct (dispatch_spec ev data w)
    as [-> | (t & h2 & s1 & Hin & _ & _ & Hrun & ->)]; [reflexivity|].
  apply run_action_frame in Hrun as [_ Hmedia]; assumption.
Qed.

Lemma find_stream_recovered :
  find_transition "STREAM_RECOVERED" v_runtime
  = nth_error defineTransitions 10.
Proof. reflexivity. Qed.

(** C4, as the code has it. The transitions of the machine stop no
    track themselves: every dispatch leaves the ready state of every
    track of every stream as it was. In particular STREAM_RECOVERED,
    applied in the runtime view while recovering, stores the payload's
    stream in [webcamStream], sets the runtime state to 'running',
    clears the error, and the tracks of the stream held before are in
    the state they were in: stopped only if they already were. *)
Theorem stream_recovered_keeps_tracks (data : Payload) (w : World) :
  state w < length (apps (heap w)) ->
  viewState (this_state w) = v_runtime ->
  runtimeState (this_state w) = r_recovering ->
  (forall ev payload w0,
     media (heap (snd (dispatch ev payload w0))) = media (heap w0)) /\
  let (applied, w') := dispatch "STREAM_RECOVERED" data w in
  applied = true /\
  webcamStream (this_state w') = data_stream data /\
  runtimeState (this_state w') = r_running /\
  error (this_state w') = None /\
  media (heap w') = media (heap w) /\
  forall m, tracks_stopped m (heap w') = tracks_stopped m (heap w).
Proof.
  intros Hlt Hview Hrec. split; [exact dispatch_media|].
  pose proof (dispatch_media "STREAM_RECOVERED" data w) as Hmedia.
  assert (Hd : dispatch "STREAM_RECOVERED" data w
               = (true,
                  {| heap := write_app (state w)
                               (set_error None
                                  (set_runtimeState r_running
                                     (set_webcamStream (data_stream data)
                                        (this_state w))))
                               (snd (alloc_app (this_state w) (heap w)));
                     state := state w;
                     emitted := emitted w
                       ++ [dispatch_detail (state w)
                             (length (apps (heap w)))
                             "STREAM_RECOVERED" data] |})).
  { unfold dispatch. set (s := this_state w) in *. clearbody s.
    rewrite Hview, find_stream_recovered. cbn. rewrite Hrec. reflexivity. }
  rewrite Hd in *. cbn in Hmedia.
  assert (Hs : this_state
                 {| heap := write_app (state w)
                               (set_error None
                                  (set_runtimeState r_running
                                     (set_webcamStream (data_stream data)
                                        (this_state w))))
                               (snd (alloc_app (this_state w) (heap w)));
                    state := state w;
                    emitted := emitted w
                      ++ [dispatch_detail (state w)
                            (length (apps (heap w)))
                            "STREAM_RECOVERED" data] |}
               = set_error None
                   (set_runtimeState r_running
                      (set_webcamStream (data_stream data) (this_state w)))).
  { unfold this_state at 1. cbn.
    apply list_lookup_total_insert_eq. rewrite length_app. lia. }
  rewrite Hs. cbn. repeat split.
Qed.

Lemma stream_recovered_keeps_tracks_witness :
  state recovering < length (apps (heap recovering)) /\
  viewState (this_state recovering) = v_runtime /\
  runtimeState (this_state recovering) = r_recovering /\
  fst (dispatch "STREAM_RECOVERED" (with_stream 1) recovering) = true /\
  media (heap (snd (dispatch "STREAM_RECOVERED" (with_stream 1) recovering)))
  = media (heap recovering).
Proof.
  assert (Hlt : state recovering < length (apps (heap recovering)))
    by (vm_compute; lia).
  pose proof (stream_recovered_keeps_tracks (with_stream 1) recovering
                Hlt eq_refl eq_refl) as [_ H].
  destruct (dispatch "STREAM_RECOVERED" (with_stream 1) recovering)
    as [applied w'].
  destruct H as (Ha & _ & _ & _ & Hm & _).
  repeat split; assumption.
Defined.

(** C4 as stated fails. STREAM_RECOVERED puts the second stream in place
    of the first while the track of the first is still live; and
    PERMISSION_GRANTED after a RETRY does the same, the first stream
    having stayed in the state through the error view. *)
Lemma stream_replaced_without_stopping :
  (webcamStream (this_state recovering) = Some 0 /\
   fst (dispatch "STREAM_RECOVERED" (with_stream 1) recovering) = true /\
   webcamStream
     (this_state
        (snd (dispatch "STREAM_RECOVERED" (with_stream 1) recovering)))
   = Some 1 /\
   tracks_stopped 0
     (heap (snd (dispatch "STREAM_RECOVERED" (with_stream 1) recovering)))
   = false) /\
  (webcamStream (this_state retried) = Some 0 /\
   fst (dispatch "PERMISSION_GRANTED" (with_stream 1) retried) = true /\
   webcamStream
     (this_state
        (snd (dispatch "PERMISSION_GRANTED" (with_stream 1) retried)))
   = Some 1 /\
   tracks_stopped 0
     (heap (snd (dispatch "PERMISSION_GRANTED" (with_stream 1) retried)))
   = false).
Proof. vm_compute. repeat split. Qed.

(** ** Recovery actions *)

(** No rule of the table is named RETRY_STREAM. *)
Lemma retry_stream_has_no_rule v t :
  In t defineTransitions -> matches "RETRY_STREAM" v t = false.
Proof.
  intros Hin. cbn in Hin.
  repeat (destruct Hin as [<- | Hin]); try contradiction; reflexivity.
Qed.

(** C8 at the STREAM_LOST error. The recovery action built by
    STREAM_ENDED dispatches RETRY_STREAM, an event for which the table
    has no rule: whatever the state, that dispatch is rejected and
    changes nothing. On the application that lost its camera while
    captioning, the error's recover action is this "Reconnect" handler,
    and invoking it neither applies a transition nor reloads the page. *)
Theorem stream_lost_recovery_is_rejected :
  (forall data w, dispatch "RETRY_STREAM" data w = (false, w)) /\
  this_error recovering
  = Some {| code := "STREAM_LOST";
            message := "Camera disconnected and auto-recovery failed";
            technical := None; recoverAction := Some 0 |} /\
  this_recoverAction recovering
  = Some {| label := "Reconnect"; handler := h_dispatch "RETRY_STREAM" |} /\
  invoke (h_dispatch "RETRY_STREAM") recovering
  = esc_dispatch false recovering /\
  escapes (invoke (h_dispatch "RETRY_STREAM") recovering) = false.
Proof.
  assert (H : forall data w, dispatch "RETRY_STREAM" data w = (false, w)).
  { intros data w. unfold dispatch, find_transition.
    rewrite (find_all_false _ _ (retry_stream_has_no_rule _)). reflexivity. }
  split; [exact H|].
  split; [reflexivity|]. split; [reflexivity|].
  unfold invoke. rewrite H. split; reflexivity.
Qed.

(** The other errors the machine builds do come with a way out: RETRY
    is applied from the error view, and the remaining two reload. *)
Example other_recovery_actions_escape :
  (this_recoverAction denied
   = Some {| label := "Retry"; handler := h_dispatch "RETRY" |} /\
   escapes (invoke (h_dispatch "RETRY") denied) = true) /\
  (this_recoverAction model_failed = Some reload_action /\
   escapes (invoke h_reload model_failed) = true) /\
  (this_recoverAction (dispatch_all [("FATAL_ERROR", no_data)] welcome)
   = Some reload_action).
Proof. vm_compute. repeat split. Qed.

(** ** Copies handed to observers *)

Lemma getState_spec w :
  getState w
  = (length (apps (heap w)),
     {| heap := {| apps := apps (heap w) ++ [this_state w];
                   errs := errs (heap w); acts := acts (heap w);
                   media := media (heap w) |};
        state := state w; emitted := emitted w |}).
Proof. reflexivity. Qed.

(** C9, as the code has it. [getState] returns a new object holding the
    field values of the live state, so assigning a field of the returned
    object does not change the live state; the copy is shallow: its
    [error] field is the very reference the live state holds, and an
    assignment inside that error record, or inside its recover action,
    is read back through the live state. The 'statechange' event of an applied dispatch carries as
    [prevState] a new object with the field values from before the
    transition, and as [state] the reference [this.state] itself. *)
Theorem getState_is_shallow (w : World) :
  state w < length (apps (heap w)) ->
  (let (snap, w1) := getState w in
   snap <> state w1 /\
   apps (heap w1) !! snap = Some (this_state w) /\
   this_state w1 = this_state w /\
   (forall f,
      this_state (with_heap (assign_field snap f (heap w1)) w1)
      = this_state w) /\
   (forall e rec msg,
      error (apps (heap w1) !!! snap) = Some e ->
      errs (heap w) !! e = Some rec ->
      this_error w1 = Some rec /\
      this_error (with_heap (assign_message e msg (heap w1)) w1)
      = Some {| code := code rec; message := msg;
                technical := technical rec;
                recoverAction := recoverAction rec |}) /\
   (forall e rec a act text,
      error (apps (heap w1) !!! snap) = Some e ->
      errs (heap w) !! e = Some rec ->
      recoverAction rec = Some a ->
      acts (heap w) !! a = Some act ->
      this_recoverAction w1 = Some act /\
      this_recoverAction (with_heap (assign_label a text (heap w1)) w1)
      = Some {| label := text; handler := handler act |})) /\
  (forall ev data,
     fst (dispatch ev data w) = true ->
     let w' := snd (dispatch ev data w) in
     exists prev,
       emitted w'
       = emitted w ++ [dispatch_detail (state w') prev ev data] /\
       prev <> state w' /\
       apps (heap w') !! prev = Some (this_state w)).
Proof.
  intros Hlt. split.
  - rewrite getState_spec.
    assert (Hsnap : (apps (heap w) ++ [this_state w])
                    !! length (apps (heap w)) = Some (this_state w))
      by now apply list_lookup_middle.
    assert (Hlive : forall (l : list AppState),
               (apps (heap w) ++ l) !!! state w = this_state w)
      by (intros l; now apply lookup_total_app_l).
    cbn. split; [lia|]. split; [exact Hsnap|]. split; [apply Hlive|].
    split; [|split].
    + intros f. unfold this_state at 1. cbn.
      rewrite list_lookup_total_alter_ne by lia. apply Hlive.
    + intros e rec msg He Hrec.
      rewrite (list_lookup_total_correct _ _ _ Hsnap) in He.
      unfold this_error, this_state. cbn. rewrite !Hlive, He.
      split; [exact Hrec|].
      rewrite list_lookup_alter_eq, Hrec. reflexivity.
    + intros e rec a act text He Hrec Ha Hact.
      rewrite (list_lookup_total_correct _ _ _ Hsnap) in He.
      unfold this_recoverAction, this_error, this_state. cbn.
      rewrite !Hlive, He, Hrec, Ha.
      split; [exact Hact|].
      rewrite list_lookup_alter_eq, Hact. reflexivity.
  - intros ev data Happlied.
    destruct (dispatch_spec ev data w)
      as [Hd | (t & h2 & s1 & Hin & _ & _ & Hrun & Hd)];
      rewrite Hd in *; [discriminate|].
    apply run_action_frame in Hrun as [Happs _]; [|assumption].
    cbn. exists (length (apps (heap w))).
    split; [reflexivity|]. split; [lia|].
    rewrite list_lookup_insert_ne by lia. rewrite Happs. cbn.
    now apply list_lookup_middle.
Qed.

Lemma getState_is_shallow_witness :
  state recovering < length (apps (heap recovering)) /\
  snapshot <> state after_getState /\
  this_state after_getState = this_state recovering.
Proof.
  assert (Hlt : state recovering < length (apps (heap recovering)))
    by (vm_compute; lia).
  pose proof (getState_is_shallow recovering Hlt) as [H _].
  unfold snapshot, after_getState.
  destruct (getState recovering) as [snap w1].
  destruct H as (Hne & _ & Hlive & _).
  repeat split; assumption.
Defined.

(** C9 as stated fails. Through the object returned by [getState] the
    client reaches the error record and its recover action; writing to
    them changes what the machine's live state shows. And the [state]
    carried by the STREAM_ENDED notification is the live object: after
    a later PAUSE it shows 'paused', not the 'recovering' it was sent
    with. *)
Lemma snapshot_not_isolated :
  (error (apps (heap after_getState) !!! snapshot) = Some 0 /\
   message <$> this_error after_getState
   = Some "Camera disconnected and auto-recovery failed" /\
   message <$> this_error
                 (with_heap (assign_message 0 "changed"
                               (heap after_getState)) after_getState)
   = Some "changed" /\
   label <$> this_recoverAction after_getState = Some "Reconnect" /\
   label <$> this_recoverAction
               (with_heap (assign_label 0 "changed"
                             (heap after_getState)) after_getState)
   = Some "changed") /\
  (last (emitted recovering)
   = Some (dispatch_detail (state recovering) 8 "STREAM_ENDED"
             (with_reason "Camera disconnected and auto-recovery failed")) /\
   runtimeState <$> apps (heap recovering) !! state recovering
   = Some r_recovering /\
   runtimeState <$>
     apps (heap (snd (dispatch "PAUSE" no_data recovering)))
       !! state recovering
   = Some r_paused).
Proof. vm_compute. repeat split. Qed.

(** ** STREAM_ENDED as sent by main.js *)

Lemma find_stream_ended :
  find_transition "STREAM_ENDED" v_runtime = nth_error defineTransitions 9.
Proof. reflexivity. Qed.

Lemma stream_ended_applied (data : Payload) (w : World) :
  state w < length (apps (heap w)) ->
  viewState (this_state w) = v_runtime ->
  let (applied, w') := dispatch "STREAM_ENDED" data w in
  applied = true /\
  viewState (this_state w') = v_runtime /\
  runtimeState (this_state w') = r_recovering /\
  this_error w'
  = Some {| code := "STREAM_LOST";
            message := or_default (data_reason data) "Camera stream lost";
            technical := None;
            recoverAction := Some (length (acts (heap w))) |} /\
  this_recoverAction w'
  = Some {| label := "Reconnect"; handler := h_dispatch "RETRY_STREAM" |}.
Proof.
  intros Hlt Hview.
  assert (Hd : dispatch "STREAM_ENDED" data w
               = (true,
                  {| heap :=
                       write_app (state w)
                         (set_error (Some (length (errs (heap w))))
                            (set_runtimeState r_recovering (this_state w)))
                         {| apps := apps (heap w) ++ [this_state w];
                            errs := errs (heap w)
                              ++ [{| code := "STREAM_LOST";
                                     message := or_default (data_reason data)
                                                  "Camera stream lost";
                                     technical := None;
                                     recoverAction :=
                                       Some (length (acts (heap w))) |}];
                            acts := acts (heap w)
                              ++ [{| label := "Reconnect";
                                     handler := h_dispatch "RETRY_STREAM" |}];
                            media := media (heap w) |};
                     state := state w;
                     emitted := emitted w
                       ++ [dispatch_detail (state w)
                             (length (apps (heap w)))
                             "STREAM_ENDED" data] |})).
  { unfold dispatch. set (s := this_state w) in *. clearbody s.
    rewrite Hview, find_stream_ended. reflexivity. }
  rewrite Hd. split; [reflexivity|].
  unfold this_recoverAction, this_error, this_state in *.
  cbn -[or_default].
  rewrite list_lookup_total_insert_eq by (rewrite length_app; cbn; lia).
  cbn -[or_default]. rewrite Hview.
  rewrite list_lookup_middle by reflexivity.
  cbn -[or_default]. rewrite list_lookup_middle by reflexivity.
  repeat split.
Qed.

End MachineProps.

(** * Properties of the camera recovery *)

Module RecoveryProps.
Import WebcamService.

(** ** The delay *)






Lemma delays_from_S n k :
  delays_from n (S k) = backoffDelay (S n) :: delays_from (S n) k.
Proof. reflexivity. Qed.

(** A refused run returns at once. *)
Lemma attemptAutoRecovery_refused (camera : nat -> option nat) w :
  refuses w = true -> attemptAutoRecovery camera w = (false, w).
Proof.
  intros Href. funelim (attemptAutoRecovery camera w);
    try reflexivity; congruence.
Qed.

Section Camera.
Variable camera : nat -> option nat.

(** ** One acquisition *)

Lemma requestWebcamPermission_spec w :
  let r := requestWebcamPermission camera w in
  requests (snd r) <= requests w + 3 /\
  waited (snd r) = waited w /\ notified (snd r) = notified w /\
  autoRecoveryEnabled (snd r) = autoRecoveryEnabled w /\
  onStreamEndedCallback (snd r) = onStreamEndedCallback w /\
  match fst r with
  | Some stream =>
      recoveryAttempts (snd r) = 0 /\ currentStream (snd r) = Some stream
  | None =>
      recoveryAttempts (snd r) = recoveryAttempts w /\
      currentStream (snd r) = currentStream w
  end.
Proof.
  unfold requestWebcamPermission, getUserMedia, acquired. cbn.
  destruct (camera (requests w)); cbn; [repeat split; lia|].
  destruct (camera (S (requests w))); cbn; [repeat split; lia|].
  destruct (camera (S (S (requests w)))); cbn; repeat split; lia.
Qed.

(** ** The recovery procedure *)

Lemma attemptAutoRecovery_spec w :
  let r := attemptAutoRecovery camera w in
  exists k,
    k <= MAX_RECOVERY_ATTEMPTS - recoveryAttempts w /\
    waited (snd r) = waited w ++ delays_from (recoveryAttempts w) k /\
    requests (snd r) <= requests w + 3 * k /\
    recoveryAttempts (snd r)
    = (if fst r then 0
       else if refuses w then recoveryAttempts w
            else MAX_RECOVERY_ATTEMPTS) /\
    (if refuses w then k = 0 else 1 <= k) /\
    notified (snd r) = notified w /\
    autoRecoveryEnabled (snd r) = autoRecoveryEnabled w /\
    onStreamEndedCallback (snd r) = onStreamEndedCallback w /\
    (if fst r then is_Some (currentStream (snd r))
     else currentStream (snd r) = currentStream w).
Proof.
  funelim (attemptAutoRecovery camera w); cbn zeta;
    repeat match goal with
    | H : sigmaI _ _ _ = _ |- _ => clear H
    | H : _ = attemptAutoRecovery _ _ |- _ => clear H
    end;
    repeat match goal with
    | H : refuses _ = _ |- _ => rewrite H; unfold refuses in H
    | H : requestWebcamPermission camera ?b = _ |- _ =>
        let S := fresh "Hreq" in
        pose proof (requestWebcamPermission_spec b) as S;
        cbn zeta in S; rewrite H in S; cbn in S; clear H
    | H : bool_decide _ = true |- _ => apply bool_decide_eq_true in H
    | H : bool_decide _ = false |- _ => apply bool_decide_eq_false in H
    | H : _ || _ = false |- _ => apply orb_false_iff in H as [? ?]
    | H : negb _ = false |- _ => apply negb_false_iff in H
    | H : ex _ |- _ => destruct H as [? ?]
    | H : _ /\ _ |- _ => destruct H as [? ?]
    end;
    unfold MAX_RECOVERY_ATTEMPTS in *; cbn [fst snd].
  - exists 0. cbn. rewrite app_nil_r. repeat split; try lia.
  - exists 1. cbn [delays_from seq map].
    cbn. repeat split; try congruence; try lia. eauto.
  - match goal with
    | IH : context [attemptAutoRecovery camera w'] |- _ =>
        unfold refuses in IH;
        rewrite (bool_decide_eq_false_2 (3 <= recoveryAttempts w')) in IH
          by lia
    end.
    match goal with
    | E : autoRecoveryEnabled w = true, E' : autoRecoveryEnabled w' = _ |- _ =>
        rewrite E in E'; cbn in E'
    end.
    match goal with
    | IH : context [if negb (autoRecoveryEnabled w') || false then _ else _],
      E' : autoRecoveryEnabled w' = true |- _ =>
        rewrite E' in IH; cbn [negb orb] in IH
    end.
    match goal with
    | K : ?k <= 3 - recoveryAttempts w' |- _ => exists (S k)
    end.
    rewrite delays_from_S.
    repeat match goal with
    | E : waited (snd (attemptAutoRecovery camera w')) = _ |- _ =>
        rewrite E; clear E
    | E : waited w' = _ |- _ => rewrite E; clear E
    | E : recoveryAttempts w' = _ |- _ => rewrite E in *; clear E
    end.
    cbn. rewrite <- app_assoc. cbn.
    repeat split; try congruence; try lia.
    destruct (fst (attemptAutoRecovery camera w')); congruence.
  - exists 1. cbn [delays_from seq map].
    cbn. repeat split; try congruence; try lia.
Qed.

(** ** Backoff *)






(** ** Bounded recovery *)

Lemma refuses_notify msg w : refuses (notify msg w) = refuses w.
Proof. reflexivity. Qed.

(** C7. Bounded recovery with terminal notification. The recovery
    procedure is a total function (its recursion descends on
    MAX_RECOVERY_ATTEMPTS minus the counter), and one run of it waits
    and re-acquires at most MAX_RECOVERY_ATTEMPTS times, each
    re-acquisition making at most three platform requests. When the run
    started by an ended track fails and a callback is registered, the
    callback receives the terminal message, the counter is not reset (it
    keeps its value if the run was refused, and is
    MAX_RECOVERY_ATTEMPTS otherwise), and from then on the recovery
    procedure returns at once without waiting or requesting, whatever
    the camera would answer. The callback of main.js turns the message
    into a STREAM_ENDED event, which in the runtime view is applied and
    leaves the machine recovering with a STREAM_LOST error carrying that
    message. *)
Theorem bounded_recovery_then_terminal_notification
    (w : Service) (m : StateMachine.World) :
  let r := attemptAutoRecovery camera w in
  let w' := on_track_ended camera w in
  let terminal := "Camera disconnected and auto-recovery failed" in
  (exists k,
     k <= MAX_RECOVERY_ATTEMPTS /\
     waited (snd r) = waited w ++ delays_from (recoveryAttempts w) k /\
     requests (snd r) <= requests w + 3 * k) /\
  (fst r = false ->
   onStreamEndedCallback w = true ->
   notified w' = notified w ++ [terminal] /\
   recoveryAttempts w'
   = (if refuses w then recoveryAttempts w else MAX_RECOVERY_ATTEMPTS) /\
   recoveryAttempts w <= recoveryAttempts w' /\
   (forall camera', attemptAutoRecovery camera' w' = (false, w')) /\
   (StateMachine.state m
    < length (StateMachine.apps (StateMachine.heap m)) ->
    StateMachine.viewState (StateMachine.this_state m)
    = StateMachine.v_runtime ->
    let (applied, m') := Main.stream_ended_callback terminal m in
    applied = true /\
    StateMachine.runtimeState (StateMachine.this_state m')
    = StateMachine.r_recovering /\
    StateMachine.code <$> StateMachine.this_error m' = Some "STREAM_LOST" /\
    StateMachine.message <$> StateMachine.this_error m' = Some terminal)).
Proof.
  cbn zeta.
  destruct (attemptAutoRecovery_spec w)
    as (k & Hk & Hwaited & Hreq & Hcount & Hk0 & Hnot & Hen & Hcb & _).
  split.
  { exists k. split; [lia|]. split; assumption. }
  intros Hfail Hcallback.
  unfold on_track_ended.
  destruct (attemptAutoRecovery camera w) as [recovered w1].
  cbn [fst snd] in *. subst recovered. cbn [negb andb].
  rewrite Hcb, Hcallback.
  assert (Href : refuses w1 = true).
  { unfold refuses in *. rewrite Hen, Hcount.
    destruct (negb (autoRecoveryEnabled w)); [reflexivity|]. cbn.
    destruct (bool_decide (MAX_RECOVERY_ATTEMPTS <= recoveryAttempts w))
      eqn:Hmax; [exact Hmax|].
    apply bool_decide_eq_true_2. lia. }
  split; [cbn; now rewrite Hnot|].
  split; [exact Hcount|].
  split.
  { cbn. rewrite Hcount. unfold refuses.
    destruct (negb (autoRecoveryEnabled w)); [cbn; lia|]. cbn.
    case_bool_decide; unfold MAX_RECOVERY_ATTEMPTS in *; lia. }
  split.
  { intros camera'. apply attemptAutoRecovery_refused.
    rewrite refuses_notify. exact Href. }
  intros Hlt Hview. unfold Main.stream_ended_callback.
  match goal with
  | |- context [StateMachine.dispatch "STREAM_ENDED" ?d m] =>
      pose proof (MachineProps.stream_ended_applied d m Hlt Hview) as H;
      destruct (StateMachine.dispatch "STREAM_ENDED" d m) as [applied m']
  end.
  destruct H as (-> & _ & Hrec & Herr & _).
  rewrite Herr. repeat split. exact Hrec.
Qed.

End Camera.


(** A camera that is gone for good: three attempts, 1 s, 2 s and 4 s
    apart, and the counter stays at its maximum. *)
Example three_failed_attempts :
  attemptAutoRecovery (fun _ => None) initial
  = (false,
     {| currentStream := None; onStreamEndedCallback := false;
        autoRecoveryEnabled := true; recoveryAttempts := 3;
        requests := 9; waited := [1000; 2000; 4000]%Z; notified := [] |}).
Proof. reflexivity. Qed.

(** A camera that comes back on the second attempt. *)
Example recovered_on_second_attempt :
  attemptAutoRecovery
    (fun request => if bool_decide (request < 4) then None else Some 7)
    initial
  = (true,
     {| currentStream := Some 7; onStreamEndedCallback := false;
        autoRecoveryEnabled := true; recoveryAttempts := 0;
        requests := 5; waited := [1000; 2000]%Z; notified := [] |}).
Proof. reflexivity. Qed.

Lemma bounded_recovery_then_terminal_notification_witness :
  let camera := fun _ : nat => @None nat in
  let w := onStreamEnded initial in
  fst (attemptAutoRecovery camera w) = false /\
  onStreamEndedCallback w = true /\
  notified (on_track_ended camera w)
  = ["Camera disconnected and auto-recovery failed"] /\
  recoveryAttempts (on_track_ended camera w) = 3.
Proof.
  cbn zeta.
  pose proof (bounded_recovery_then_terminal_notification
                (fun _ => None) (onStreamEnded initial)
                Scenarios.running) as [_ H].
  specialize (H eq_refl eq_refl) as (Hn & Hc & _).
  repeat split; assumption.
Defined.

End RecoveryProps.

(** * Properties of the inference lock *)

Module InferenceProps.
Import VLMService.

(** ** Trimming *)

(** [trim] strips the white space of ECMAScript beyond ASCII too, here
    a byte order mark (U+FEFF), a no-break space (U+00A0) and an
    ideographic space (U+3000) around a text, and keeps a zero-width
    space (U+200B), which is not white space. *)
Example trim_strips_unicode_white_space :
  let bytes := fold_right (fun b s => String (Ascii.ascii_of_nat b) s) "" in
  trim (bytes [239; 187; 191; 32; 194; 160] +:+ "a cat"
        +:+ bytes [227; 128; 128; 10; 194; 160])
  = "a cat" /\
  trim (bytes [194; 160; 9; 226; 128; 168]) = "" /\
  trim (bytes [32; 226; 128; 139] +:+ "x ") = bytes [226; 128; 139] +:+ "x".
Proof. vm_compute. repeat split. Qed.

Lemma in_flight_snoc cs c :
  length (List.filter suspended (cs ++ [c]))
  = length (List.filter suspended cs) + (if suspended c then 1 else 0).
Proof.
  rewrite List.filter_app, length_app. cbn.
  destruct (suspended c); reflexivity.
Qed.

Lemma in_flight_insert cs i c0 c :
  cs !! i = Some c0 ->
  length (List.filter suspended (<[i := c]> cs))
  + (if suspended c0 then 1 else 0)
  = length (List.filter suspended cs) + (if suspended c then 1 else 0).
Proof.
  revert i. induction cs as [|a cs IH]; intros [|i] Hi; try discriminate.
  - injection Hi as ->. cbn.
    destruct (suspended c0), (suspended c); cbn; lia.
  - cbn in Hi. specialize (IH i Hi). cbn.
    destruct (suspended a); cbn; [f_equal|]; exact IH.
Qed.

Lemma step_lock_counts sys e : lock_counts sys -> lock_counts (step sys e).
Proof.
  unfold lock_counts, in_flight. destruct sys as [[p m l] cs]. cbn.
  intros Hinv. destruct e as [sync|i error|i g| |]; cbn.
  - unfold runInference. cbn. destruct l; cbn.
    + rewrite in_flight_snoc. cbn. lia.
    + destruct p, m, sync; cbn; rewrite in_flight_snoc; cbn; lia.
  - destruct (cs !! i) as [[| |o]|] eqn:Hi; cbn; try assumption.
    pose proof (in_flight_insert cs i await_processor) as Hins.
    destruct error; cbn;
      [specialize (Hins (settled (rejected s)) Hi)
      |specialize (Hins await_generate Hi)];
      cbn in Hins; destruct l; lia.
  - destruct (cs !! i) as [[| |o]|] eqn:Hi; cbn; try assumption.
    pose proof (in_flight_insert cs i await_generate) as Hins.
    destruct g; cbn;
      [specialize (Hins (settled (finalText streamed decoded)) Hi)
      |specialize (Hins (settled (rejected reason)) Hi)];
      cbn in Hins; destruct l; lia.
  - assumption.
  - assumption.
Qed.

Lemma run_lock_counts es sys : lock_counts sys -> lock_counts (run es sys).
Proof.
  revert sys. induction es as [|e es IH]; intros sys H; [assumption|].
  cbn. apply IH, step_lock_counts, H.
Qed.

(** C1, as the code has it. Single-flight inference: start from a
    service whose lock is free and let calls and resumptions interleave
    in any way. At every instant at most one call is in flight, and the
    lock is held exactly when one is. A call made while the lock is held
    settles at once with the empty string and changes nothing. Of two
    overlapping calls on a loaded service the second resolves with the
    empty string and the first settles with what the model produced, a
    text that may be empty or an error: at most one of the two results
    is a non-empty text, and afterwards the lock is free again. *)
Theorem single_flight (s : Service) (es : list Event)
    (second error : option string) (g : Generation) :
  inferenceLock s = false ->
  let sys := run es (start s) in
  in_flight sys <= 1 /\
  in_flight sys = (if inferenceLock (service sys) then 1 else 0) /\
  (inferenceLock (service sys) = true ->
   runInference second (service sys)
   = (settled (resolved ""), service sys)) /\
  (processor s = true -> model s = true ->
   let final := run [ev_call None; ev_call second;
                     ev_processor 0 error; ev_generate 0 g] (start s) in
   calls final = [completion error g; settled (resolved "")] /\
   non_empty_results final = (if non_empty (completion error g) then 1 else 0) /\
   non_empty_results final <= 1 /\
   in_flight final = 0 /\
   inferenceLock (service final) = false).
Proof.
  intros Hfree sys.
  assert (Hinv : lock_counts sys).
  { apply run_lock_counts. unfold lock_counts, in_flight. cbn.
    now rewrite Hfree. }
  unfold lock_counts in Hinv.
  split; [destruct (inferenceLock (service sys)); lia|].
  split; [exact Hinv|].
  split.
  { intros Hheld. unfold runInference. now rewrite Hheld. }
  intros Hp Hm. destruct s as [p m l]. cbn in Hfree, Hp, Hm. subst.
  destruct error as [e|]; [|destruct g as [streamed decoded|reason]]; cbn;
    unfold non_empty_results; cbn.
  - repeat split; lia.
  - destruct (finalText streamed decoded) as [text|reason];
      [destruct (negb (String.eqb text ""))|]; cbn; repeat split; lia.
  - repeat split; lia.
Qed.

Lemma single_flight_witness :
  inferenceLock loaded = false /\
  processor loaded = true /\ model loaded = true /\
  calls (run [ev_call None; ev_call None; ev_processor 0 None;
              ev_generate 0 (generated " a cat" None)] (start loaded))
  = [settled (resolved "a cat"); settled (resolved "")].
Proof.
  pose proof (single_flight loaded [] None None
                (generated " a cat" None) eq_refl) as (_ & _ & _ & H).
  specialize (H eq_refl eq_refl) as (Hcalls & _).
  repeat split; exact Hcalls.
Defined.

(** C1 as stated fails: the call that holds the lock need not yield a
    non-empty text. When the model produces only white space, both of
    two overlapping calls resolve with the empty string; when generation
    fails, the first is rejected and the second resolves with the empty
    string. Neither run has a non-empty final result. *)
Lemma overlapping_calls_without_result :
  (let final := run [ev_call None; ev_call None; ev_processor 0 None;
                     ev_generate 0 (generated "  " (Some ""))]
                  (start loaded) in
   calls final = [settled (resolved ""); settled (resolved "")] /\
   non_empty_results final = 0) /\
  (let final := run [ev_call None; ev_call None; ev_processor 0 None;
                     ev_generate 0 (generation_failed "device lost")]
                  (start loaded) in
   calls final = [settled (rejected "device lost"); settled (resolved "")] /\
   non_empty_results final = 0).
Proof. vm_compute. repeat split. Qed.

End InferenceProps.

(** * Further properties of the state machine *)

Module MachineExtras.
Import StateMachine Scenarios.

(** ** The rule table *)

Lemma find_is_Some_iff {A} (f : A -> bool) (l : list A) :
  is_Some (List.find f l) <-> exists x, In x l /\ f x = true.
Proof.
  split.
  - intros [x Hx]. apply find_some in Hx. eauto.
  - intros (x & Hin & Hfx).
    destruct (List.find f l) eqn:Hfind; [eauto|].
    pose proof (find_none _ _ Hfind x Hin). congruence.
Qed.

(** X1. Each event name has exactly one rule in the table. So whenever
    a rule of the table matches an event in a view state, it is the rule
    [dispatch] finds: there is never a choice between two rules, nor
    between an exact source and the wildcard. *)
Theorem rule_is_unique :
  NoDup (map event defineTransitions) /\
  forall ev v t,
    In t defineTransitions -> matches ev v t = true ->
    find_transition ev v = Some t.
Proof.
  split.
  - compute_done.
  - intros ev v t Hin Hm.
    apply MachineProps.matches_from in Hm as [<- Hfrom].
    cbn in Hin.
    repeat (destruct Hin as [<- | Hin]); try contradiction;
      cbn in Hfrom; destruct Hfrom as [Hfrom | Hfrom];
      try discriminate; try (injection Hfrom as <-);
      try reflexivity; destruct v; reflexivity.
Qed.

Lemma rule_is_unique_witness :
  matches "RETRY" v_error
    {| event := "RETRY"; from := from_state v_error; to := v_permission;
       guard := None;
       action := Some (fun _ h s =>
                         (h, set_runtimeState r_idle (set_error None s))) |}
  = true /\
  is_Some (find_transition "RETRY" v_error).
Proof.
  split; [reflexivity|].
  destruct rule_is_unique as [_ H].
  rewrite (H "RETRY" v_error
             {| event := "RETRY"; from := from_state v_error;
                to := v_permission; guard := None;
                action := Some (fun _ h s =>
                                  (h, set_runtimeState r_idle
                                        (set_error None s))) |}).
  - eauto.
  - do 13 right. left. reflexivity.
  - reflexivity.
Defined.

(** ** getAvailableEvents *)

Lemma available_iff_found ev w :
  In ev (getAvailableEvents w)
  <-> is_Some (find_transition ev (viewState (this_state w))).
Proof.
  unfold getAvailableEvents, find_transition.
  rewrite find_is_Some_iff, in_map_iff. split.
  - intros (t & <- & [Hin Hf]%filter_In). exists t. split; [assumption|].
    unfold matches. rewrite String.eqb_refl. exact Hf.
  - intros (t & Hin & Hm). exists t.
    unfold matches in Hm. apply andb_true_iff in Hm as [He Hf].
    apply String.eqb_eq in He. split; [assumption|].
    apply filter_In. split; assumption.
Qed.

(** X2. [getAvailableEvents] lists exactly the events for which
    [dispatch] finds a rule in the current view state. An event that is
    not listed is rejected and leaves the world unchanged; an event
    whose dispatch is applied is listed; FATAL_ERROR is always listed.
    (A listed event can still be rejected by its guard.) *)
Theorem available_events_are_the_matched (ev : string) (data : Payload)
    (w : World) :
  (In ev (getAvailableEvents w)
   <-> is_Some (find_transition ev (viewState (this_state w)))) /\
  (~ In ev (getAvailableEvents w) -> dispatch ev data w = (false, w)) /\
  (fst (dispatch ev data w) = true -> In ev (getAvailableEvents w)) /\
  In "FATAL_ERROR" (getAvailableEvents w).
Proof.
  split; [apply available_iff_found|].
  split; [|split].
  - intros Hnot. unfold dispatch.
    destruct (find_transition ev (viewState (this_state w))) eqn:Hf;
      [|reflexivity].
    exfalso. apply Hnot, available_iff_found. rewrite Hf. eauto.
  - intros Happlied. apply available_iff_found.
    unfold dispatch in Happlied.
    destruct (find_transition ev (viewState (this_state w)));
      [eauto | discriminate].
  - apply available_iff_found. rewrite MachineProps.find_fatal_error.
    cbn. eauto.
Qed.

Lemma available_events_are_the_matched_witness :
  ~ In "RESUME" (getAvailableEvents welcome) /\
  dispatch "RESUME" no_data welcome = (false, welcome) /\
  getAvailableEvents welcome = ["START"; "START_FALLBACK"; "FATAL_ERROR"].
Proof.
  assert (Hnot : ~ In "RESUME" (getAvailableEvents welcome)).
  { intros H. vm_compute in H. intuition discriminate. }
  split; [exact Hnot|].
  destruct (available_events_are_the_matched "RESUME" no_data welcome)
    as (_ & H & _).
  split; [exact (H Hnot) | reflexivity].
Defined.

(** ** What a dispatch can and cannot change *)

Ltac each_rule Hin :=
  cbn in Hin; repeat (destruct Hin as [<- | Hin]); try contradiction.

Lemma action_keeps_flags t data h s h' s1 :
  In t defineTransitions ->
  run_action t data h s = (h', s1) ->
  viewState s1 = viewState s /\ hasWebGPU s1 = hasWebGPU s /\
  isVideoReady s1 = isVideoReady s /\
  (exists added, errs h' = errs h ++ added) /\
  (exists added, acts h' = acts h ++ added).
Proof.
  intros Hin Hrun. each_rule Hin; cbn in Hrun;
    try (unfold fatal_error_action in Hrun;
         destruct (data_recoverAction data); cbn in Hrun);
    injection Hrun as <- <-; cbn; repeat split;
    try (exists []; now rewrite app_nil_r); eauto.
Qed.

Lemma wildcard_is_fatal_error t :
  In t defineTransitions -> from t = from_any -> event t = "FATAL_ERROR".
Proof. intros Hin Hany. each_rule Hin; try discriminate; reflexivity. Qed.

Lemma dispatch_applied ev data w :
  state w < length (apps (heap w)) ->
  fst (dispatch ev data w) = true ->
  exists t h2 s1,
    In t defineTransitions /\
    matches ev (viewState (this_state w)) t = true /\
    guard_fails t (this_state w) data = false /\
    run_action t data (snd (alloc_app (this_state w) (heap w)))
      (this_state w) = (h2, s1) /\
    this_state (snd (dispatch ev data w))
    = (if bool_decide (to t = viewState (this_state w))
       then s1 else set_viewState (to t) s1) /\
    viewState (this_state (snd (dispatch ev data w))) = to t.
Proof.
  intros Hlt Happlied.
  destruct (MachineProps.dispatch_result ev data w Hlt)
    as [Hd | (t & h2 & s1 & Hin & Hm & Hg & Hrun & _ & Hs)];
    [rewrite Hd in Happlied; discriminate|].
  exists t, h2, s1. repeat split; try assumption.
  rewrite Hs.
  apply action_keeps_flags in Hrun as (Hv & _); [|assumption].
  case_bool_decide; cbn; congruence.
Qed.

(** X3. An applied dispatch lands in a view that [canTransitionTo]
    announced beforehand, unless the event is FATAL_ERROR (the one rule
    with the wildcard source, which [canTransitionTo] does not
    consider). *)
Theorem applied_dispatch_was_announced (ev : string) (data : Payload)
    (w : World) :
  state w < length (apps (heap w)) ->
  fst (dispatch ev data w) = true ->
  ev <> "FATAL_ERROR" ->
  canTransitionTo (viewState (this_state (snd (dispatch ev data w)))) w
  = true.
Proof.
  intros Hlt Happlied Hev.
  destruct (dispatch_applied ev data w Hlt Happlied)
    as (t & _ & _ & Hin & Hm & _ & _ & _ & ->).
  apply MachineProps.matches_from in Hm as [He [Hfrom | Hany]].
  - unfold canTransitionTo. apply existsb_exists. exists t.
    split; [assumption|]. rewrite Hfrom.
    rewrite !bool_decide_eq_true_2 by reflexivity. reflexivity.
  - apply wildcard_is_fatal_error in Hany; [|assumption]. congruence.
Qed.

Lemma applied_dispatch_was_announced_witness :
  state welcome < length (apps (heap welcome)) /\
  fst (dispatch "START" no_data welcome) = true /\
  canTransitionTo v_loading welcome = true.
Proof.
  assert (Hlt : state welcome < length (apps (heap welcome)))
    by (vm_compute; lia).
  split; [exact Hlt|]. split; [reflexivity|].
  exact (applied_dispatch_was_announced "START" no_data welcome Hlt
           eq_refl ltac:(discriminate)).
Defined.

(** X4. No dispatch changes [hasWebGPU] or [isVideoReady]; the stream
    held in [webcamStream] changes only on PERMISSION_GRANTED and
    STREAM_RECOVERED; and the error records and recover actions already
    in the store are never rewritten, new ones are only added. *)
Theorem dispatch_frame (ev : string) (data : Payload) (w : World) :
  state w < length (apps (heap w)) ->
  let w' := snd (dispatch ev data w) in
  hasWebGPU (this_state w') = hasWebGPU (this_state w) /\
  isVideoReady (this_state w') = isVideoReady (this_state w) /\
  (webcamStream (this_state w') = webcamStream (this_state w)
   \/ ev = "PERMISSION_GRANTED" \/ ev = "STREAM_RECOVERED") /\
  (exists added, errs (heap w') = errs (heap w) ++ added) /\
  (exists added, acts (heap w') = acts (heap w) ++ added).
Proof.
  intros Hlt w'. subst w'.
  destruct (MachineProps.dispatch_spec ev data w)
    as [Hd | (t & h2 & s1 & Hin & Hm & Hg & Hrun & Hd)].
  { rewrite Hd. cbn. repeat split; auto;
      exists []; now rewrite app_nil_r. }
  pose proof (action_keeps_flags _ _ _ _ _ _ Hin Hrun)
    as (Hv & Hgpu & Hvid & Herrs & Hacts).
  pose proof (MachineProps.run_action_frame _ _ _ _ _ _ Hin Hrun)
    as [Happs _].
  apply MachineProps.matches_from in Hm as [He _].
  rewrite Hd. cbn [snd heap].
  match goal with
  | |- context [this_state {| heap := write_app _ ?s2 _; state := _;
                              emitted := ?em |}] =>
      assert (Hs : this_state {| heap := write_app (state w) s2 h2;
                                 state := state w; emitted := em |} = s2)
        by (unfold this_state; cbn;
            apply list_lookup_total_insert_eq;
            rewrite Happs; cbn; rewrite length_app; lia);
      rewrite Hs; clear Hs
  end.
  assert (Hstream : webcamStream s1 = webcamStream (this_state w)
                    \/ ev = "PERMISSION_GRANTED"
                    \/ ev = "STREAM_RECOVERED").
  { subst ev. clear Hg Hv Hgpu Hvid Herrs Hacts Happs Hd.
    each_rule Hin; cbn in Hrun;
      try (unfold fatal_error_action in Hrun;
           destruct (data_recoverAction data); cbn in Hrun);
      injection Hrun as <- <-; cbn; auto. }
  cbn in Herrs, Hacts.
  case_bool_decide; cbn; repeat split; assumption.
Qed.

Lemma dispatch_frame_witness :
  state recovering < length (apps (heap recovering)) /\
  isVideoReady
    (this_state (snd (dispatch "FATAL_ERROR" no_data recovering))) = true /\
  webcamStream
    (this_state (snd (dispatch "FATAL_ERROR" no_data recovering))) = Some 0.
Proof.
  assert (Hlt : state recovering < length (apps (heap recovering)))
    by (vm_compute; lia).
  split; [exact Hlt|].
  destruct (dispatch_frame "FATAL_ERROR" no_data recovering Hlt)
    as (_ & Hvid & [Hs | [Hs | Hs]] & _);
    try discriminate Hs.
  rewrite Hvid, Hs. split; reflexivity.
Defined.

(** X5. The runtime view is entered only by WARMUP_COMPLETE, only when
    the video has been reported ready, and it is entered with the
    runtime state 'running' and the loading phase 'complete'. *)
Theorem runtime_needs_video_ready (ev : string) (data : Payload)
    (w : World) :
  state w < length (apps (heap w)) ->
  viewState (this_state w) <> v_runtime ->
  viewState (this_state (snd (dispatch ev data w))) = v_runtime ->
  ev = "WARMUP_COMPLETE" /\
  viewState (this_state w) = v_loading /\
  isVideoReady (this_state w) = true /\
  runtimeState (this_state (snd (dispatch ev data w))) = r_running /\
  loadingPhase (this_state (snd (dispatch ev data w))) = complete.
Proof.
  intros Hlt Hbefore Hafter.
  destruct (MachineProps.dispatch_result ev data w Hlt)
    as [Hd | (t & h2 & s1 & Hin & Hm & Hg & Hrun & _ & Hs)].
  { rewrite Hd in Hafter. contradiction. }
  rewrite Hs in Hafter |- *.
  apply MachineProps.matches_from in Hm as [<- Hfrom].
  destruct (this_state w) as [v r lp ws vr gpu e]. cbn in Hbefore.
  each_rule Hin; cbn in Hfrom, Hg, Hrun;
    try (unfold fatal_error_action in Hrun;
         destruct (data_recoverAction data); cbn in Hrun);
    injection Hrun as <- <-;
    (destruct Hfrom as [Hfrom | Hfrom]; try discriminate);
    try (injection Hfrom as <-); try contradiction;
    repeat case_bool_decide; cbn in *; try congruence;
    try (destruct v; cbn in *; congruence).
  all: apply negb_false_iff in Hg; repeat split; congruence.
Qed.

Lemma runtime_needs_video_ready_witness :
  let w := perform_all (take 5 to_runtime)
             (new_StateMachine Main.initialState two_streams) in
  state w < length (apps (heap w)) /\
  viewState (this_state w) <> v_runtime /\
  viewState (this_state (snd (dispatch "WARMUP_COMPLETE" no_data w)))
  = v_runtime /\
  isVideoReady (this_state w) = true.
Proof.
  cbn zeta.
  set (w := perform_all (take 5 to_runtime)
              (new_StateMachine Main.initialState two_streams)).
  assert (Hlt : state w < length (apps (heap w))) by (vm_compute; lia).
  assert (Hb : viewState (this_state w) <> v_runtime)
    by (vm_compute; discriminate).
  assert (Ha : viewState
                 (this_state (snd (dispatch "WARMUP_COMPLETE" no_data w)))
               = v_runtime) by reflexivity.
  destruct (runtime_needs_video_ready "WARMUP_COMPLETE" no_data w Hlt Hb Ha)
    as (_ & _ & Hv & _).
  repeat split; assumption.
Defined.

(** ** Dispatch seen from the live state *)

Lemma dispatch_accepts ev data w :
  fst (dispatch ev data w) = Application.accepts ev data (this_state w).
Proof.
  unfold dispatch, Application.accepts.
  destruct (find_transition ev (viewState (this_state w))); [|reflexivity].
  destruct (guard_fails _ _ _); [reflexivity|]. cbn.
  destruct (run_action _ _ _ _). reflexivity.
Qed.

Lemma dispatch_after ev data w :
  state w < length (apps (heap w)) ->
  this_state (snd (dispatch ev data w))
  = Application.after ev data (this_state w)
      (snd (alloc_app (this_state w) (heap w))).
Proof.
  intros Hlt. unfold dispatch, Application.after.
  destruct (find_transition ev (viewState (this_state w))) as [t|] eqn:Hf;
    [|reflexivity].
  apply find_some in Hf as [Hin _].
  destruct (guard_fails _ _ _); [reflexivity|]. cbn [alloc_app snd].
  destruct (run_action _ _ _ _) as [h2 s1] eqn:Hrun. cbn [snd].
  apply MachineProps.run_action_frame in Hrun as [Happs _]; [|assumption].
  unfold this_state at 1. cbn.
  apply list_lookup_total_insert_eq. rewrite Happs. cbn.
  rewrite length_app. lia.
Qed.

Lemma dispatch_emitted ev data w :
  emitted (snd (dispatch ev data w))
  = emitted w
    ++ (if fst (dispatch ev data w)
        then [dispatch_detail (state w) (length (apps (heap w))) ev data]
        else []).
Proof.
  unfold dispatch.
  destruct (find_transition ev (viewState (this_state w)));
    [|cbn; now rewrite app_nil_r].
  destruct (guard_fails _ _ _); [cbn; now rewrite app_nil_r|]. cbn.
  destruct (run_action _ _ _ _). reflexivity.
Qed.

Lemma dispatch_all_cons ev data evs w :
  dispatch_all ((ev, data) :: evs) w
  = dispatch_all evs (snd (dispatch ev data w)).
Proof. reflexivity. Qed.

Lemma dispatch_wf ev data w :
  state w < length (apps (heap w)) ->
  state (snd (dispatch ev data w))
  < length (apps (heap (snd (dispatch ev data w)))).
Proof.
  intros Hlt.
  destruct (MachineProps.dispatch_keeps_state ev data w Hlt) as [-> H].
  exact H.
Qed.

(** ** setState *)

Lemma setState_state updates w :
  this_state (setState updates w) = spread (this_state w) updates.
Proof.
  unfold setState, this_state at 1. cbn.
  apply list_lookup_total_middle. rewrite length_app. cbn. lia.
Qed.

Lemma setState_wf updates w :
  state (setState updates w) < length (apps (heap (setState updates w))).
Proof. unfold setState. cbn. rewrite !length_app. cbn. lia. Qed.

(** X6. [setState] never consults the rule table and never rejects: it
    points [this.state] at a new object holding the old fields
    overridden by the updates (a view state among them, if given),
    leaves the previous state object as it was, touches no error record,
    recover action or track, and emits exactly one 'statechange' event,
    also when the updates are empty. The event carries the new object
    and a fresh copy of the previous fields. *)
Theorem setState_replaces_state (updates : PartialState) (w : World) :
  state w < length (apps (heap w)) ->
  let w' := setState updates w in
  this_state w' = spread (this_state w) updates /\
  state w' <> state w /\
  apps (heap w') !! state w = Some (this_state w) /\
  (exists prev,
     emitted w' = emitted w ++ [setState_detail (state w') prev updates] /\
     prev <> state w /\ prev <> state w' /\
     apps (heap w') !! prev = Some (this_state w)) /\
  errs (heap w') = errs (heap w) /\ acts (heap w') = acts (heap w) /\
  media (heap w') = media (heap w).
Proof.
  intros Hlt w'. subst w'.
  split; [apply setState_state|].
  unfold setState. cbn. split; [rewrite length_app; cbn; lia|].
  split.
  { rewrite <- app_assoc. rewrite lookup_app_l by assumption.
    unfold this_state. apply list_lookup_lookup_total_lt. assumption. }
  split; [|repeat split].
  exists (length (apps (heap w))). rewrite length_app. cbn.
  split; [reflexivity|]. split; [lia|]. split; [lia|].
  rewrite <- app_assoc. now apply list_lookup_middle.
Qed.

Lemma setState_replaces_state_witness :
  state running < length (apps (heap running)) /\
  this_state (setState no_updates running) = this_state running /\
  length (emitted (setState no_updates running))
  = S (length (emitted running)).
Proof.
  assert (Hlt : state running < length (apps (heap running)))
    by (vm_compute; lia).
  split; [exact Hlt|].
  destruct (setState_replaces_state no_updates running Hlt)
    as (Hs & _ & _ & (prev & Hem & _) & _).
  split.
  - rewrite Hs. reflexivity.
  - rewrite Hem, length_app. cbn. lia.
Defined.

(** ** Following a script of calls *)

Lemma perform_all_dispatch ev data ops w :
  perform_all (op_dispatch ev data :: ops) w
  = perform_all ops (snd (dispatch ev data w)).
Proof. reflexivity. Qed.

Lemma perform_all_setState updates ops w :
  perform_all (op_setState updates :: ops) w
  = perform_all ops (setState updates w).
Proof. reflexivity. Qed.

(** Given the live state of [w] as an explicit record, perform the
    first call of the script and compute the live state it leaves. *)
Ltac run_head :=
  match goal with
  | Hwf : state ?w < length (apps (heap ?w)), Hs : this_state ?w = _
    |- context [perform_all (op_dispatch ?ev ?d :: ?rest) ?w] =>
      rewrite (perform_all_dispatch ev d rest w);
      let Hwf' := fresh "Hwf" in
      let Hs' := fresh "Hs" in
      pose proof (dispatch_wf ev d w Hwf) as Hwf';
      pose proof (dispatch_after ev d w Hwf) as Hs';
      rewrite Hs in Hs';
      match type of Hs' with
      | _ = ?rhs =>
          let r := eval vm_compute in rhs in
          replace rhs with r in Hs' by (vm_compute; reflexivity)
      end;
      clear Hwf Hs;
      generalize dependent (snd (dispatch ev d w)); clear w; intros w Hwf Hs
  | Hwf : state ?w < length (apps (heap ?w)), Hs : this_state ?w = _
    |- context [perform_all (op_setState ?u :: ?rest) ?w] =>
      rewrite (perform_all_setState u rest w);
      let Hwf' := fresh "Hwf" in
      let Hs' := fresh "Hs" in
      pose proof (setState_wf u w) as Hwf';
      pose proof (setState_state u w) as Hs';
      rewrite Hs in Hs';
      match type of Hs' with
      | _ = ?rhs =>
          let r := eval vm_compute in rhs in
          replace rhs with r in Hs' by (vm_compute; reflexivity)
      end;
      clear Hwf Hs;
      generalize dependent (setState u w); clear w; intros w Hwf Hs
  end.

(** ** The loading screen *)

(** X7. The loading screen's success script (WGPU_READY, MODEL_LOADED,
    WARMUP_COMPLETE, and WARMUP_COMPLETE again from onComplete) brings a
    machine in the loading view to the runtime view, running, exactly
    when the video element reports 'canplay' before the last of these
    events: at any of the four earlier points the script ends in
    runtime / running / complete. When 'canplay' only comes after the
    script, both WARMUP_COMPLETE dispatches have been rejected and the
    machine stays in the loading view, warming, although the video is
    now ready. *)
Theorem loading_needs_canplay_in_time (w : World) (k : nat) :
  state w < length (apps (heap w)) ->
  viewState (this_state w) = v_loading ->
  isVideoReady (this_state w) = false ->
  k <= 3 ->
  let script :=
    map (fun e => Application.act_dispatch (fst e) (snd e))
      Application.loading_succeeds in
  let in_time :=
    this_state
      (Application.run
         (take k script ++ Application.act_canplay :: drop k script) w) in
  let too_late :=
    this_state (Application.run (script ++ [Application.act_canplay]) w) in
  (viewState in_time = v_runtime /\ runtimeState in_time = r_running /\
   loadingPhase in_time = complete) /\
  (viewState too_late = v_loading /\ runtimeState too_late = r_warming /\
   loadingPhase too_late = warming_up /\ isVideoReady too_late = true).
Proof.
  intros Hwf Hview Hvideo Hk.
  destruct (this_state w) as [v r lp ws vr gpu e] eqn:Hs.
  cbn in Hview, Hvideo. subst v vr.
  cbn zeta. unfold Application.run, Application.loading_succeeds.
  split.
  - destruct k as [|[|[|[|k]]]]; [| | | |lia];
      cbn [map take drop app fst snd Application.op_of];
      do 5 run_head; cbn [perform_all fold_left]; rewrite Hs;
      repeat split.
  - cbn [map app fst snd Application.op_of].
    do 5 run_head. cbn [perform_all fold_left]. rewrite Hs. repeat split.
Qed.

Lemma loading_needs_canplay_in_time_witness :
  let w := perform_all (take 2 to_runtime)
             (new_StateMachine Main.initialState two_streams) in
  state w < length (apps (heap w)) /\
  viewState (this_state w) = v_loading /\
  isVideoReady (this_state w) = false /\
  viewState
    (this_state
       (Application.run
          [Application.act_dispatch "WGPU_READY" no_data;
           Application.act_dispatch "MODEL_LOADED" no_data;
           Application.act_dispatch "WARMUP_COMPLETE" no_data;
           Application.act_canplay;
           Application.act_dispatch "WARMUP_COMPLETE" no_data] w))
  = v_runtime.
Proof.
  cbn zeta.
  set (w := perform_all (take 2 to_runtime)
              (new_StateMachine Main.initialState two_streams)).
  assert (Hlt : state w < length (apps (heap w))) by (vm_compute; lia).
  destruct (loading_needs_canplay_in_time w 3 Hlt eq_refl eq_refl
              ltac:(lia)) as [(Hv & _) _].
  split; [exact Hlt|]. split; [reflexivity|]. split; [reflexivity|].
  exact Hv.
Defined.

Lemma find_model_failed :
  find_transition "MODEL_FAILED" v_loading = nth_error defineTransitions 11.
Proof. reflexivity. Qed.

Lemma model_failed_applied (data : Payload) (w : World) :
  state w < length (apps (heap w)) ->
  viewState (this_state w) = v_loading ->
  let (applied, w') := dispatch "MODEL_FAILED" data w in
  applied = true /\
  viewState (this_state w') = v_error /\
  runtimeState (this_state w') = r_failed /\
  this_error w'
  = Some {| code := "MODEL_LOAD_FAILED";
            message := "Failed to load AI model";
            technical := data_error data;
            recoverAction := Some (length (acts (heap w))) |} /\
  this_recoverAction w' = Some reload_action.
Proof.
  intros Hlt Hview.
  assert (Hd : dispatch "MODEL_FAILED" data w
               = (true,
                  {| heap :=
                       write_app (state w)
                         (set_viewState v_error
                            (set_error (Some (length (errs (heap w))))
                               (set_runtimeState r_failed (this_state w))))
                         {| apps := apps (heap w) ++ [this_state w];
                            errs := errs (heap w)
                              ++ [{| code := "MODEL_LOAD_FAILED";
                                     message := "Failed to load AI model";
                                     technical := data_error data;
                                     recoverAction :=
                                       Some (length (acts (heap w))) |}];
                            acts := acts (heap w) ++ [reload_action];
                            media := media (heap w) |};
                     state := state w;
                     emitted := emitted w
                       ++ [dispatch_detail (state w)
                             (length (apps (heap w)))
                             "MODEL_FAILED" data] |})).
  { unfold dispatch. set (s := this_state w) in *. clearbody s.
    rewrite Hview, find_model_failed. reflexivity. }
  rewrite Hd. split; [reflexivity|].
  unfold this_recoverAction, this_error, this_state in *.
  cbn.
  rewrite list_lookup_total_insert_eq by (rewrite length_app; cbn; lia).
  cbn. rewrite list_lookup_middle by reflexivity.
  cbn. rewrite list_lookup_middle by reflexivity.
  repeat split.
Qed.

(** X8. Whatever phase the loading screen fails in (no [navigator.gpu],
    the model load, or the warm-up), its script of events ends with
    MODEL_FAILED and leaves a machine that was in the loading view in
    the error view with the runtime state 'failed' and a
    MODEL_LOAD_FAILED error whose technical text is the error's message
    and whose recover action reloads the page. *)
Theorem loading_failure_reaches_error (w : World) (phases : nat)
    (msg : string) :
  state w < length (apps (heap w)) ->
  viewState (this_state w) = v_loading ->
  let w' := dispatch_all (Application.loading_fails phases msg) w in
  viewState (this_state w') = v_error /\
  runtimeState (this_state w') = r_failed /\
  (code <$> this_error w') = Some "MODEL_LOAD_FAILED" /\
  (message <$> this_error w') = Some "Failed to load AI model" /\
  (technical <$> this_error w') = Some (Some msg) /\
  this_recoverAction w' = Some reload_action.
Proof.
  intros Hwf Hview.
  destruct (this_state w) as [v r lp ws vr gpu e] eqn:Hs.
  cbn in Hview. subst v.
  assert (Hend : forall w0,
             state w0 < length (apps (heap w0)) ->
             viewState (this_state w0) = v_loading ->
             let w' := snd (dispatch "MODEL_FAILED"
                              (Application.with_error msg) w0) in
             viewState (this_state w') = v_error /\
             runtimeState (this_state w') = r_failed /\
             (code <$> this_error w') = Some "MODEL_LOAD_FAILED" /\
             (message <$> this_error w') = Some "Failed to load AI model" /\
             (technical <$> this_error w') = Some (Some msg) /\
             this_recoverAction w' = Some reload_action).
  { intros w0 Hwf0 Hview0.
    pose proof (model_failed_applied (Application.with_error msg) w0
                  Hwf0 Hview0) as H.
    destruct (dispatch "MODEL_FAILED" (Application.with_error msg) w0)
      as [applied w'].
    destruct H as (_ & Hv & Hr & He & Ha). cbn [snd].
    rewrite He. repeat split; assumption. }
  cbn zeta. unfold dispatch_all, Application.loading_fails.
  destruct phases as [|[|phases]];
    cbn [take firstn]; rewrite ?take_nil; cbn [map app fst snd];
    [|do 1 run_head|do 2 run_head];
    cbn [perform_all fold_left perform];
    apply Hend; try assumption; rewrite Hs; reflexivity.
Qed.

Lemma loading_failure_reaches_error_witness :
  let w := perform_all (take 2 to_runtime)
             (new_StateMachine Main.initialState two_streams) in
  state w < length (apps (heap w)) /\
  viewState (this_state w) = v_loading /\
  viewState
    (this_state (dispatch_all (Application.loading_fails 1 "out of memory") w))
  = v_error.
Proof.
  cbn zeta.
  set (w := perform_all (take 2 to_runtime)
              (new_StateMachine Main.initialState two_streams)).
  assert (Hlt : state w < length (apps (heap w))) by (vm_compute; lia).
  destruct (loading_failure_reaches_error w 1 "out of memory" Hlt eq_refl)
    as (Hv & _).
  split; [exact Hlt|]. split; [reflexivity|]. exact Hv.
Defined.

(** ** FATAL_ERROR and RETRY *)

(** X9. From any state FATAL_ERROR followed by RETRY is applied twice
    and ends in the permission view, idle, without error; the stream in
    [webcamStream], the video flag, the WebGPU flag and the loading
    phase are what they were before: the way back through the error
    view neither releases the stream nor resets the flags. *)
Theorem fatal_error_then_retry (d1 d2 : Payload) (w : World) :
  state w < length (apps (heap w)) ->
  let w1 := snd (dispatch "FATAL_ERROR" d1 w) in
  let w2 := snd (dispatch "RETRY" d2 w1) in
  fst (dispatch "FATAL_ERROR" d1 w) = true /\
  fst (dispatch "RETRY" d2 w1) = true /\
  this_state w2
  = {| viewState := v_permission; runtimeState := r_idle;
       loadingPhase := loadingPhase (this_state w);
       webcamStream := webcamStream (this_state w);
       isVideoReady := isVideoReady (this_state w);
       hasWebGPU := hasWebGPU (this_state w);
       error := None |}.
Proof.
  intros Hwf. cbn zeta.
  pose proof (dispatch_wf "FATAL_ERROR" d1 w Hwf) as Hwf1.
  pose proof (dispatch_after "FATAL_ERROR" d1 w Hwf) as Hs1.
  pose proof (dispatch_after "RETRY" d2 _ Hwf1) as Hs2.
  rewrite !dispatch_accepts. rewrite Hs2, Hs1.
  destruct (this_state w) as [v r lp ws vr gpu e].
  destruct d1 as [? ? ? ? ? ? [a|]];
    destruct v; vm_compute; repeat split.
Qed.

Lemma fatal_error_then_retry_witness :
  state running < length (apps (heap running)) /\
  viewState
    (this_state
       (snd (dispatch "RETRY" no_data
               (snd (dispatch "FATAL_ERROR" no_data running)))))
  = v_permission /\
  webcamStream
    (this_state
       (snd (dispatch "RETRY" no_data
               (snd (dispatch "FATAL_ERROR" no_data running)))))
  = Some 0.
Proof.
  assert (Hlt : state running < length (apps (heap running)))
    by (vm_compute; lia).
  split; [exact Hlt|].
  destruct (fatal_error_then_retry no_data no_data running Hlt)
    as (_ & _ & ->).
  split; reflexivity.
Defined.

(** ** The WebGPU flag in the application *)

Lemma find_start_fallback v :
  find_transition "START_FALLBACK" v
  = if bool_decide (v = v_welcome) then nth_error defineTransitions 3
    else None.
Proof. destruct v; reflexivity. Qed.

Lemma start_fallback_rejected data w :
  hasWebGPU (this_state w) = true ->
  dispatch "START_FALLBACK" data w = (false, w).
Proof.
  intros Hgpu. unfold dispatch. rewrite find_start_fallback.
  case_bool_decide; [|reflexivity].
  cbn. rewrite Hgpu. reflexivity.
Qed.

Lemma with_webgpu_no_image_upload ev data s h :
  hasWebGPU s = true -> viewState s <> v_image_upload ->
  hasWebGPU (Application.after ev data s h) = true /\
  viewState (Application.after ev data s h) <> v_image_upload.
Proof.
  intros Hgpu Hview. unfold Application.after.
  destruct (find_transition ev (viewState s)) as [t|] eqn:Hf;
    [|now split].
  apply find_some in Hf as [Hin _].
  destruct (guard_fails t s data) eqn:Hg; [now split|].
  destruct (run_action t data h s) as [h2 s1] eqn:Hrun. cbn [snd].
  pose proof (action_keeps_flags _ _ _ _ _ _ Hin Hrun) as (Hv & Hg' & _).
  assert (Hto : to t <> v_image_upload).
  { clear Hrun Hv Hg'. each_rule Hin; cbn; try discriminate.
    cbn in Hg. rewrite Hgpu in Hg. discriminate. }
  case_bool_decide; cbn; split; congruence.
Qed.

(** X10. In the application the machine is built with [hasWebGPU: true]
    and nothing main.js does to it (any dispatch, and the 'canplay'
    listener's [setState({isVideoReady: true})]) changes that flag. So
    START_FALLBACK, which the welcome screen dispatches when the GPU
    detection of main.js failed, is always rejected and leaves the
    machine unchanged, and the image-upload view is never reached. *)
Theorem image_upload_is_unreachable (h : Heap)
    (acts : list Application.Action) (data : Payload) :
  let w := Application.run acts (new_StateMachine Main.initialState h) in
  hasWebGPU (this_state w) = true /\
  viewState (this_state w) <> v_image_upload /\
  dispatch "START_FALLBACK" data w = (false, w) /\
  Application.welcome_start false w = (false, w).
Proof.
  cbn zeta.
  assert (Hinv : forall acts w,
             state w < length (apps (heap w)) ->
             hasWebGPU (this_state w) = true ->
             viewState (this_state w) <> v_image_upload ->
             hasWebGPU (this_state (Application.run acts w)) = true /\
             viewState (this_state (Application.run acts w))
             <> v_image_upload).
  { clear acts. intros acts.
    induction acts as [|a acts IH]; intros w Hwf Hgpu Hview; [now split|].
    unfold Application.run in *. cbn [map perform_all fold_left].
    destruct a as [ev d|]; cbn [Application.op_of perform].
    - apply IH.
      + now apply dispatch_wf.
      + rewrite dispatch_after by assumption.
        now apply with_webgpu_no_image_upload.
      + rewrite dispatch_after by assumption.
        now apply with_webgpu_no_image_upload.
    - apply IH.
      + apply setState_wf.
      + rewrite setState_state. cbn. assumption.
      + rewrite setState_state. cbn. assumption. }
  destruct (Hinv acts (new_StateMachine Main.initialState h))
    as [Hgpu Hview].
  - cbn. rewrite length_app. cbn. lia.
  - unfold this_state. cbn.
    now rewrite list_lookup_total_middle by reflexivity.
  - unfold this_state. cbn.
    rewrite list_lookup_total_middle by reflexivity. discriminate.
  - split; [exact Hgpu|]. split; [exact Hview|].
    unfold Application.welcome_start.
    split; now apply start_fallback_rejected.
Qed.

(** ** What the table keeps of the error-presence invariant *)

Lemma run_keeps_accounted (acts : list Application.Action) (w : World) :
  state w < length (apps (heap w)) ->
  accounted (this_state w) ->
  accounted (this_state (Application.run acts w)).
Proof.
  revert w. induction acts as [|a acts IH]; intros w Hwf Hacc;
    [assumption|].
  unfold Application.run in *. cbn [map perform_all fold_left].
  destruct a as [ev d|]; cbn [Application.op_of perform]; apply IH.
  - now apply dispatch_wf.
  - now apply MachineProps.dispatch_keeps_accounted.
  - apply setState_wf.
  - rewrite setState_state.
    destruct (this_state w) as [v r lp ws vr gpu e]. exact Hacc.
Qed.

(** X25. One direction of the error-presence invariant holds in the
    runtime view too. Start from a machine that holds no error and is
    not in a failure configuration (the constructor's default state and
    main.js's initial state are such, whatever [isVideoReady] is) and
    apply any dispatches and 'canplay' updates. Then a failure
    configuration always comes with an error: if the view is 'error' or
    the runtime state is 'recovering' or 'failed', [error] is non-null.
    An error is only held in the error view or the runtime view;
    outside the runtime view [error] is non-null exactly in a failure
    configuration; 'recovering' only occurs in the runtime view and
    'failed' only in the error view. *)
Theorem failure_configuration_has_error (acts : list Application.Action)
    (w : World) :
  state w < length (apps (heap w)) ->
  error (this_state w) = None ->
  viewState (this_state w) <> v_error ->
  runtimeState (this_state w) <> r_recovering ->
  runtimeState (this_state w) <> r_failed ->
  let s := this_state (Application.run acts w) in
  (viewState s = v_error \/ runtimeState s = r_recovering
   \/ runtimeState s = r_failed -> error s <> None) /\
  (error s <> None -> viewState s = v_error \/ viewState s = v_runtime) /\
  (viewState s <> v_runtime -> error_presence s) /\
  (runtimeState s = r_recovering -> viewState s = v_runtime) /\
  (runtimeState s = r_failed -> viewState s = v_error).
Proof.
  intros Hwf He Hv Hr Hf. cbn zeta.
  apply MachineProps.accounted_spec, run_keeps_accounted; [assumption|].
  unfold accounted.
  destruct (this_state w) as [v r lp ws vr gpu e]. cbn in *.
  destruct v; try contradiction; repeat split; congruence.
Qed.

Lemma failure_configuration_has_error_witness :
  let w := new_StateMachine video_ready_at_start two_streams in
  let acts := map (fun e => Application.act_dispatch (fst e) (snd e))
                (take 5 lost_then_paused) in
  state w < length (apps (heap w)) /\
  error (this_state w) = None /\
  runtimeState (this_state (Application.run acts w)) = r_recovering /\
  error (this_state (Application.run acts w)) <> None.
Proof.
  cbn zeta.
  set (w := new_StateMachine video_ready_at_start two_streams).
  assert (Hlt : state w < length (apps (heap w))) by (vm_compute; lia).
  assert (Hrec : runtimeState
                   (this_state
                      (Application.run
                         (map (fun e => Application.act_dispatch e.1 e.2)
                            (take 5 lost_then_paused)) w))
                 = r_recovering) by (vm_compute; reflexivity).
  destruct (failure_configuration_has_error
              (map (fun e => Application.act_dispatch (fst e) (snd e))
                 (take 5 lost_then_paused))
              w Hlt eq_refl ltac:(vm_compute; discriminate)
              ltac:(vm_compute; discriminate)
              ltac:(vm_compute; discriminate)) as (Herr & _).
  split; [exact Hlt|]. split; [reflexivity|]. split; [exact Hrec|].
  apply Herr. right. left. exact Hrec.
Defined.

End MachineExtras.

(** * Further properties of the webcam service *)

Module CameraExtras.
Import WebcamService CameraDevices.

(** ** Releasing the camera *)

Lemma stop_tracks_stopped stream ts : stopped stream (stop_tracks stream ts).
Proof.
  unfold stopped, stop_tracks. intros rs.
  rewrite list_lookup_alter_eq.
  destruct (ts !! stream) as [old|]; [|discriminate].
  intros [= <-]. induction old; cbn; constructor; auto.
Qed.

Lemma stop_tracks_idempotent stream ts :
  stop_tracks stream (stop_tracks stream ts) = stop_tracks stream ts.
Proof.
  unfold stop_tracks. rewrite list_alter_alter_eq.
  apply list_alter_ext; [|reflexivity].
  intros rs _. cbn. rewrite map_map. reflexivity.
Qed.

(** X11. [stopStream] stops every track of the current stream and
    forgets the stream; the tracks of all other streams, the recovery
    counter, the callback and the auto-recovery switch are untouched.
    It is idempotent, and when no stream is held it does nothing. *)
Theorem stopStream_releases (d : Devices) :
  getStream (stopStream d) = None /\
  (forall stream, getStream d = Some stream ->
     stopped stream (tracks (stopStream d)) /\
     length <$> (tracks (stopStream d) !! stream)
     = length <$> (tracks d !! stream)) /\
  (forall other, getStream d <> Some other ->
     tracks (stopStream d) !! other = tracks d !! other) /\
  (getStream d = None -> stopStream d = d) /\
  stopStream (stopStream d) = stopStream d /\
  recoveryAttempts (service (stopStream d)) = recoveryAttempts (service d) /\
  autoRecoveryEnabled (service (stopStream d))
  = autoRecoveryEnabled (service d) /\
  onStreamEndedCallback (service (stopStream d))
  = onStreamEndedCallback (service d).
Proof.
  unfold stopStream, getStream. destruct d as [s ts]. cbn.
  destruct (currentStream s) as [m|] eqn:Hm; cbn.
  - split; [reflexivity|]. split.
    { intros stream [= <-]. split; [apply stop_tracks_stopped|].
      unfold stop_tracks. rewrite list_lookup_alter_eq.
      destruct (ts !! m); cbn; [|reflexivity]. now rewrite length_map. }
    split.
    { intros other Hother. unfold stop_tracks.
      apply list_lookup_alter_ne. congruence. }
    split; [discriminate|]. repeat split.
  - rewrite Hm. repeat split; try discriminate; congruence.
Qed.

Lemma stopStream_releases_witness :
  let d := {| service := set_currentStream (Some 1) initial;
              tracks := [[live]; [live; live]] |} in
  getStream d = Some 1 /\
  tracks (stopStream d) = [[live]; [ended; ended]] /\
  stopped 1 (tracks (stopStream d)).
Proof.
  cbn zeta.
  destruct (stopStream_releases
              {| service := set_currentStream (Some 1) initial;
                 tracks := [[live]; [live; live]] |})
    as (_ & H & _).
  destruct (H 1 eq_refl) as [Hstopped _].
  split; [reflexivity|]. split; [reflexivity | exact Hstopped].
Defined.

(** ** Switching the camera *)



(** ** The listener of an ended track *)

(** X13. With a callback registered, the listener of an ended track
    calls it exactly once, also when the recovery succeeded: then with
    the message 'Camera reconnected' and the counter back at zero.
    Without a callback nothing is notified. main.js turns every call of
    the callback into STREAM_ENDED; so after a successful reconnection
    a machine in the runtime view ends up recovering, with a
    STREAM_LOST error whose message is 'Camera reconnected'. *)
Theorem every_ended_track_notifies_once (camera : nat -> option MediaStream)
    (w : Service) (m : StateMachine.World) :
  let recovered := fst (attemptAutoRecovery camera w) in
  let w' := on_track_ended camera w in
  notified w'
  = notified w
    ++ (if onStreamEndedCallback w
        then [if recovered then "Camera reconnected"
              else "Camera disconnected and auto-recovery failed"]
        else []) /\
  recoveryAttempts w' = recoveryAttempts (snd (attemptAutoRecovery camera w)) /\
  (if recovered
   then recoveryAttempts w' = 0 /\ is_Some (currentStream w')
   else currentStream w' = currentStream w) /\
  (StateMachine.state m
   < length (StateMachine.apps (StateMachine.heap m)) ->
   StateMachine.viewState (StateMachine.this_state m)
   = StateMachine.v_runtime ->
   let (applied, m') := Main.stream_ended_callback "Camera reconnected" m in
   applied = true /\
   StateMachine.runtimeState (StateMachine.this_state m')
   = StateMachine.r_recovering /\
   StateMachine.code <$> StateMachine.this_error m' = Some "STREAM_LOST" /\
   StateMachine.message <$> StateMachine.this_error m'
   = Some "Camera reconnected").
Proof.
  cbn zeta.
  destruct (RecoveryProps.attemptAutoRecovery_spec camera w)
    as (k & _ & _ & _ & Hcount & _ & Hnot & _ & Hcb & Hstream).
  unfold on_track_ended.
  destruct (attemptAutoRecovery camera w) as [recovered w1].
  cbn [fst snd] in *. rewrite Hcb.
  split; [|split; [|split]].
  - destruct recovered, (onStreamEndedCallback w); cbn;
      rewrite Hnot, ?app_nil_r; reflexivity.
  - destruct recovered, (onStreamEndedCallback w); reflexivity.
  - destruct recovered, (onStreamEndedCallback w); cbn;
      try split; assumption.
  - intros Hlt Hview. unfold Main.stream_ended_callback.
    match goal with
    | |- context [StateMachine.dispatch "STREAM_ENDED" ?d m] =>
        pose proof (MachineProps.stream_ended_applied d m Hlt Hview) as H;
        destruct (StateMachine.dispatch "STREAM_ENDED" d m) as [applied m']
    end.
    destruct H as (-> & _ & Hrec & Herr & _).
    rewrite Herr. repeat split. exact Hrec.
Qed.

Lemma every_ended_track_notifies_once_witness :
  let camera := fun request : nat =>
                  if bool_decide (request < 3) then None else Some 5 in
  let w := onStreamEnded initial in
  notified (on_track_ended camera w) = ["Camera reconnected"] /\
  StateMachine.runtimeState
    (StateMachine.this_state
       (snd (Main.stream_ended_callback "Camera reconnected"
               Scenarios.running)))
  = StateMachine.r_recovering.
Proof.
  cbn zeta.
  assert (Hlt : StateMachine.state Scenarios.running
                < length (StateMachine.apps
                            (StateMachine.heap Scenarios.running)))
    by (vm_compute; lia).
  destruct (every_ended_track_notifies_once
              (fun request => if bool_decide (request < 3) then None
                              else Some 5)
              (onStreamEnded initial) Scenarios.running)
    as (Hn & _ & _ & H).
  specialize (H Hlt eq_refl).
  destruct (Main.stream_ended_callback "Camera reconnected"
              Scenarios.running) as [applied m'].
  destruct H as (_ & Hr & _).
  split; [exact Hn | exact Hr].
Defined.

(** X14. A successful acquisition re-arms the recovery: whatever the
    counter was (also at its maximum, after a run that gave up), once
    [requestWebcamPermission] has obtained a stream the next run of the
    recovery procedure, if auto-recovery is enabled, is not refused and
    starts again with a delay of 1000 ms. *)
Theorem acquisition_rearms_recovery
    (camera camera' : nat -> option MediaStream) (w : Service) :
  autoRecoveryEnabled w = true ->
  is_Some (fst (requestWebcamPermission camera w)) ->
  let w1 := snd (requestWebcamPermission camera w) in
  refuses w1 = false /\
  exists later,
    waited (snd (attemptAutoRecovery camera' w1))
    = waited w ++ 1000%Z :: later.
Proof.
  intros Hen [stream Hs]. cbn zeta.
  pose proof (RecoveryProps.requestWebcamPermission_spec camera w)
    as (_ & Hw & _ & Hen1 & _ & Hacq).
  cbn zeta in *. rewrite Hs in Hacq. destruct Hacq as [Hzero _].
  assert (Href : refuses (snd (requestWebcamPermission camera w)) = false).
  { unfold refuses. rewrite Hen1, Hen, Hzero. reflexivity. }
  split; [exact Href|].
  destruct (RecoveryProps.attemptAutoRecovery_spec camera'
              (snd (requestWebcamPermission camera w)))
    as (k & _ & Hwaited & _ & _ & Hk & _).
  rewrite Href in Hk. rewrite Hwaited, Hw, Hzero.
  destruct k as [|k]; [lia|]. exists (delays_from 1 k). reflexivity.
Qed.

Lemma acquisition_rearms_recovery_witness :
  let exhausted := snd (attemptAutoRecovery (fun _ => None) initial) in
  recoveryAttempts exhausted = 3 /\
  autoRecoveryEnabled exhausted = true /\
  is_Some (fst (requestWebcamPermission (fun _ => Some 2) exhausted)) /\
  refuses (snd (requestWebcamPermission (fun _ => Some 2) exhausted))
  = false.
Proof.
  cbn zeta.
  assert (Hs : is_Some (fst (requestWebcamPermission (fun _ => Some 2)
                  (snd (attemptAutoRecovery (fun _ => None) initial)))))
    by (vm_compute; eauto).
  destruct (acquisition_rearms_recovery (fun _ => Some 2) (fun _ => None)
              (snd (attemptAutoRecovery (fun _ => None) initial))
              eq_refl Hs) as [Href _].
  split; [reflexivity|]. split; [reflexivity|].
  split; [exact Hs | exact Href].
Defined.

End CameraExtras.

(** * Properties of model loading *)

Module LoaderProps.
Import ModelLoader.

Lemma count_snoc {A} (f : A -> bool) l x :
  length (List.filter f (l ++ [x]))
  = length (List.filter f l) + (if f x then 1 else 0).
Proof.
  rewrite List.filter_app, length_app. cbn. destruct (f x); reflexivity.
Qed.

Lemma count_insert {A} (f : A -> bool) l i x0 x :
  l !! i = Some x0 ->
  length (List.filter f (<[i := x]> l)) + (if f x0 then 1 else 0)
  = length (List.filter f l) + (if f x then 1 else 0).
Proof.
  revert i. induction l as [|a l IH]; intros [|i] Hi; try discriminate.
  - injection Hi as ->. cbn. destruct (f x0), (f x); cbn; lia.
  - cbn in Hi. specialize (IH i Hi). cbn.
    destruct (f a); cbn; [f_equal|]; exact IH.
Qed.

Lemma count_zero {A} (f : A -> bool) l i x :
  length (List.filter f l) = 0 -> l !! i = Some x -> f x = false.
Proof.
  revert i. induction l as [|a l IH]; intros i Hz Hi; [discriminate|].
  cbn in Hz. destruct (f a) eqn:Hfa; [discriminate|].
  destruct i as [|i]; cbn in Hi; [congruence|]. eapply IH; eassumption.
Qed.

Lemma count_positive {A} (f : A -> bool) l :
  0 < length (List.filter f l) -> exists i x, l !! i = Some x /\ f x = true.
Proof.
  induction l as [|a l IH]; cbn; [lia|].
  destruct (f a) eqn:Hfa.
  - intros _. exists 0, a. split; [reflexivity | assumption].
  - intros H. destruct (IH H) as (i & x & Hi & Hx).
    exists (S i), x. split; assumption.
Qed.

(** With no promise held, no load is pending. *)
Lemma idle_has_no_pending sys :
  consistent sys -> loadPromise (loader sys) = None -> pending_loads sys = 0.
Proof.
  intros (_ & Hheld & _) Hnone.
  destruct (pending_loads sys) eqn:Hp; [reflexivity|]. exfalso.
  destruct (count_positive pending (loads sys)) as (i & s & Hi & Hs).
  { unfold pending_loads in Hp. lia. }
  rewrite (Hheld i s Hi Hs) in Hnone. discriminate.
Qed.

Lemma loaded_has_no_pending sys :
  consistent sys -> isLoaded (loader sys) = true -> pending_loads sys = 0.
Proof.
  intros Hc Hl. apply idle_has_no_pending; [assumption|].
  destruct Hc as (_ & _ & _ & _ & H). now apply H.
Qed.

Lemma start_consistent : consistent start.
Proof.
  unfold consistent, pending_loads. cbn.
  repeat split; try discriminate; intros; try discriminate.
Qed.

Lemma pending_is_held sys i s :
  consistent sys -> loads sys !! i = Some s -> pending s = true ->
  loadPromise (loader sys) = Some i /\ isLoading (loader sys) = true /\
  isLoaded (loader sys) = false /\ pending_loads sys = 1.
Proof.
  intros (Hcount & Hheld & _ & _ & Hloaded) Hi Hs.
  pose proof (Hheld i s Hi Hs) as Hp.
  assert (Hpos : pending_loads sys <> 0).
  { intros Hz. pose proof (count_zero pending _ _ _ Hz Hi). congruence. }
  destruct (isLoading (loader sys)) eqn:Hl; [|congruence].
  split; [assumption|]. split; [reflexivity|]. split; [|assumption].
  destruct (isLoaded (loader sys)); [|reflexivity].
  destruct (Hloaded eq_refl) as (_ & _ & ? & _). discriminate.
Qed.

Lemma fail_consistent sys i s reason :
  consistent sys -> loads sys !! i = Some s -> pending s = true ->
  consistent (fail i reason sys).
Proof.
  intros Hc Hi Hs.
  destruct (pending_is_held sys i s Hc Hi Hs) as (Hp & Hl & Hnl & Hone).
  destruct Hc as (Hcount & Hheld & Hex & Hproc & Hloaded).
  unfold consistent, fail, pending_loads in *. cbn.
  pose proof (count_insert pending (loads sys) i s (rejected reason) Hi)
    as Hins.
  rewrite Hs in Hins. cbn in Hins.
  split; [lia|]. split; [|split; [|split]].
  - intros j s' Hj Hs'.
    destruct (decide (i = j)) as [<-|Hne].
    + rewrite list_lookup_insert_eq in Hj by (eapply lookup_lt_Some; eauto).
      injection Hj as <-. discriminate.
    + rewrite list_lookup_insert_ne in Hj by assumption.
      pose proof (Hheld j s' Hj Hs'). exfalso. apply Hne. congruence.
  - discriminate.
  - intros j Hj.
    destruct (decide (i = j)) as [<-|Hne].
    + rewrite list_lookup_insert_eq in Hj by (eapply lookup_lt_Some; eauto).
      discriminate.
    + rewrite list_lookup_insert_ne in Hj by assumption. eauto.
  - congruence.
Qed.

Lemma advance_consistent sys i s next (set_processor : bool) :
  consistent sys -> loads sys !! i = Some s -> pending s = true ->
  pending next = true ->
  (next = at_model -> set_processor = true) ->
  consistent
    {| loader := {| processor := set_processor || processor (loader sys);
                    model := model (loader sys);
                    isLoaded := isLoaded (loader sys);
                    isLoading := isLoading (loader sys);
                    loadPromise := loadPromise (loader sys) |};
       loads := <[i := next]> (loads sys);
       returned := returned sys |}.
Proof.
  intros Hc Hi Hs Hnext Hset.
  destruct (pending_is_held sys i s Hc Hi Hs) as (Hp & Hl & Hnl & Hone).
  destruct Hc as (Hcount & Hheld & Hex & Hproc & Hloaded).
  unfold consistent, pending_loads in *. cbn.
  pose proof (count_insert pending (loads sys) i s next Hi) as Hins.
  rewrite Hs, Hnext in Hins. rewrite length_insert.
  split; [lia|]. split; [|split; [|split]].
  - intros j s' Hj Hs'.
    destruct (decide (i = j)) as [<-|Hne]; [assumption|].
    rewrite list_lookup_insert_ne in Hj by assumption. eauto.
  - assumption.
  - intros j Hj.
    destruct (decide (i = j)) as [<-|Hne].
    + rewrite list_lookup_insert_eq in Hj by (eapply lookup_lt_Some; eauto).
      injection Hj as ->. now rewrite Hset.
    + rewrite list_lookup_insert_ne in Hj by assumption.
      rewrite (Hproc j Hj). apply orb_true_r.
  - congruence.
Qed.

Lemma step_consistent sys e : consistent sys -> consistent (step sys e).
Proof.
  intros Hc. destruct e as [sync|i answer|i error|i error]; cbn.
  - unfold loadModel.
    destruct (isLoaded (loader sys)) eqn:Hl; [exact Hc|].
    destruct (loadPromise (loader sys)) as [p|] eqn:Hp; [exact Hc|].
    pose proof (idle_has_no_pending sys Hc Hp) as Hzero.
    destruct Hc as (Hcount & Hheld & Hex & Hproc & Hloaded).
    assert (Hold : forall j s', (loads sys ++ [s']) !! j = Some at_model ->
              s' <> at_model -> processor (loader sys) = true).
    { intros j s' Hj Hne.
      apply lookup_app_Some in Hj as [Hj | [_ Hj]]; [eauto|].
      apply list_lookup_singleton_Some in Hj as [_ ->]. contradiction. }
    assert (Hnone : forall j s s', (loads sys ++ [s']) !! j = Some s ->
              pending s = true -> j = length (loads sys) /\ s = s').
    { intros j s s' Hj Hs.
      apply lookup_app_Some in Hj as [Hj | [Hge Hj]].
      - pose proof (Hheld j s Hj Hs). congruence.
      - apply list_lookup_singleton_Some in Hj as [Hd ->].
        split; [lia | reflexivity]. }
    unfold pending_loads in *.
    destruct sync as [e|]; unfold consistent, pending_loads; cbn;
      rewrite count_snoc, Hzero, length_app; cbn.
    + split; [reflexivity|]. split; [|split; [|split]].
      * intros j s Hj Hs. destruct (Hnone j s _ Hj Hs) as [_ ->].
        discriminate.
      * intros j [= <-]. lia.
      * intros j Hj. eapply Hold; [eassumption | discriminate].
      * discriminate.
    + split; [reflexivity|]. split; [|split; [|split]].
      * intros j s Hj Hs. destruct (Hnone j s _ Hj Hs) as [-> _].
        reflexivity.
      * intros j [= <-]. lia.
      * intros j Hj. eapply Hold; [eassumption | discriminate].
      * discriminate.
  - unfold detect_settles.
    destruct (loads sys !! i) as [[| | | |r]|] eqn:Hi; try exact Hc.
    destruct answer as [e|[|]].
    + eapply fail_consistent; eauto.
    + pose proof (advance_consistent sys i at_detect at_processor false
                    Hc Hi eq_refl eq_refl ltac:(discriminate)) as H.
      cbn in H. destruct (loader sys). exact H.
    + eapply fail_consistent; eauto.
  - unfold processor_settles.
    destruct (loads sys !! i) as [[| | | |r]|] eqn:Hi; try exact Hc.
    destruct error as [e|].
    + eapply fail_consistent; eauto.
    + exact (advance_consistent sys i at_processor at_model true
               Hc Hi eq_refl eq_refl (fun _ => eq_refl)).
  - unfold model_settles.
    destruct (loads sys !! i) as [[| | | |r]|] eqn:Hi; try exact Hc.
    destruct error as [e|]; [eapply fail_consistent; eauto|].
    destruct (pending_is_held sys i at_model Hc Hi eq_refl)
      as (Hp & Hl & Hnl & Hone).
    destruct Hc as (Hcount & Hheld & Hex & Hproc & Hloaded).
    unfold consistent, pending_loads in *. cbn.
    pose proof (count_insert pending (loads sys) i at_model fulfilled Hi)
      as Hins.
    cbn in Hins.
    split; [lia|]. split; [|split; [|split]].
    + intros j s' Hj Hs'.
      destruct (decide (i = j)) as [<-|Hne].
      * rewrite list_lookup_insert_eq in Hj
          by (eapply lookup_lt_Some; eauto).
        injection Hj as <-. discriminate.
      * rewrite list_lookup_insert_ne in Hj by assumption.
        pose proof (Hheld j s' Hj Hs'). exfalso. apply Hne. congruence.
    + discriminate.
    + intros j Hj. eauto.
    + intros _. repeat split. eauto.
Qed.

Lemma run_consistent es sys : consistent sys -> consistent (run es sys).
Proof.
  revert sys. induction es as [|e es IH]; intros sys H; [assumption|].
  cbn. apply IH, step_consistent, H.
Qed.

(** ** One load at a time *)

(** X15. Loading is single-flight: in every state reached from a new
    service by any interleaving of [loadModel] calls and resumptions of
    load bodies, at most one load is pending and [isLoading] is true
    exactly while one is. A call made while a load is pending starts
    nothing and is handed the promise of that load. When [isLoaded] is
    reported, the processor and the model are both set, so a
    [runInference] on that service passes its not-loaded check. *)
Theorem loading_is_single_flight (es : list Event)
    (sync_error : option string) :
  let sys := run es start in
  consistent sys /\
  pending_loads sys <= 1 /\
  pending_loads sys = (if isLoading (loader sys) then 1 else 0) /\
  (isLoading (loader sys) = true ->
   exists i,
     loadPromise (loader sys) = Some i /\
     loadModel sync_error sys
     = {| loader := loader sys; loads := loads sys;
          returned := returned sys ++ [promise i] |}) /\
  (isLoaded (loader sys) = true ->
   VLMService.runInference None
     {| VLMService.processor := processor (loader sys);
        VLMService.model := model (loader sys);
        VLMService.inferenceLock := false |}
   = (VLMService.await_processor,
      {| VLMService.processor := true; VLMService.model := true;
         VLMService.inferenceLock := true |})).
Proof.
  cbn zeta.
  pose proof (run_consistent es start start_consistent) as Hc.
  split; [exact Hc|].
  destruct Hc as (Hcount & Hheld & Hex & Hproc & Hloaded).
  split; [destruct (isLoading (loader (run es start))); lia|].
  split; [exact Hcount|]. split.
  - intros Hl. rewrite Hl in Hcount.
    destruct (count_positive pending (loads (run es start)))
      as (i & s & Hi & Hs).
    { unfold pending_loads in Hcount. lia. }
    exists i. pose proof (Hheld i s Hi Hs) as Hp.
    split; [exact Hp|]. unfold loadModel. rewrite Hp.
    destruct (isLoaded (loader (run es start))) eqn:Hld; [|reflexivity].
    destruct (Hloaded eq_refl) as (_ & _ & ? & _). congruence.
  - intros Hld. destruct (Hloaded Hld) as (-> & -> & _). reflexivity.
Qed.

Lemma loading_is_single_flight_witness :
  let sys := run [ev_loadModel None; ev_detect 0 (inr true)] start in
  isLoading (loader sys) = true /\
  returned (loadModel None sys) = [promise 0; promise 0] /\
  loads (loadModel None sys) = [at_processor].
Proof.
  cbn zeta.
  destruct (loading_is_single_flight
              [ev_loadModel None; ev_detect 0 (inr true)] None)
    as (_ & _ & _ & H & _).
  destruct (H eq_refl) as (i & Hp & Hcall).
  rewrite Hcall. cbn in Hp. injection Hp as <-.
  repeat split.
Defined.

(** ** After a load has settled *)

Lemma frozen_step sys e :
  pending_loads sys = 0 ->
  (isLoaded (loader sys) = true \/ is_Some (loadPromise (loader sys))) ->
  loader (step sys e) = loader sys /\ loads (step sys e) = loads sys /\
  returned (step sys e)
  = returned sys
    ++ match e with
       | ev_loadModel _ =>
           [if isLoaded (loader sys) then already_loaded
            else match loadPromise (loader sys) with
                 | Some p => promise p
                 | None => already_loaded
                 end]
       | _ => []
       end.
Proof.
  intros Hzero Hheld.
  assert (Hnot : forall i s, loads sys !! i = Some s -> pending s = false)
    by (intros i s; apply count_zero; exact Hzero).
  destruct e as [sync|i answer|i error|i error]; cbn.
  - unfold loadModel. destruct (isLoaded (loader sys)); [repeat split|].
    destruct Hheld as [Hl | [p Hp]]; [discriminate|].
    rewrite Hp. repeat split.
  - unfold detect_settles.
    destruct (loads sys !! i) as [[| | | |r]|] eqn:Hi;
      try (now rewrite app_nil_r).
    pose proof (Hnot i _ Hi). discriminate.
  - unfold processor_settles.
    destruct (loads sys !! i) as [[| | | |r]|] eqn:Hi;
      try (now rewrite app_nil_r).
    pose proof (Hnot i _ Hi). discriminate.
  - unfold model_settles.
    destruct (loads sys !! i) as [[| | | |r]|] eqn:Hi;
      try (now rewrite app_nil_r).
    pose proof (Hnot i _ Hi). discriminate.
Qed.

Lemma frozen_run es sys :
  pending_loads sys = 0 ->
  (isLoaded (loader sys) = true \/ is_Some (loadPromise (loader sys))) ->
  loader (run es sys) = loader sys /\ loads (run es sys) = loads sys /\
  returned (run es sys)
  = returned sys
    ++ replicate (calls es)
         (if isLoaded (loader sys) then already_loaded
          else match loadPromise (loader sys) with
               | Some p => promise p
               | None => already_loaded
               end).
Proof.
  revert sys. induction es as [|e es IH]; intros sys Hzero Hheld.
  - cbn. now rewrite app_nil_r.
  - destruct (frozen_step sys e Hzero Hheld) as (Hl & Hs & Hr).
    cbn [run fold_left]. fold (run es (step sys e)).
    destruct (IH (step sys e)) as (Hl' & Hs' & Hr').
    + unfold pending_loads. rewrite Hs. exact Hzero.
    + rewrite Hl. exact Hheld.
    + rewrite Hl', Hs', Hr', Hl, Hs, Hr. split; [reflexivity|].
      split; [reflexivity|]. rewrite <- app_assoc. f_equal.
      unfold calls. destruct e; cbn; reflexivity.
Qed.

(** X16. Once the model is loaded nothing changes any more: after any
    further calls and events [isLoaded] is still true, no load has been
    started, and every further call of [loadModel] has returned at once
    without a promise. *)
Theorem loaded_is_final (es later : list Event) :
  let sys := run es start in
  isLoaded (loader sys) = true ->
  loader (run later sys) = loader sys /\
  loads (run later sys) = loads sys /\
  returned (run later sys)
  = returned sys ++ replicate (calls later) already_loaded /\
  getLoadedState (run later sys) = (true, false).
Proof.
  cbn zeta. intros Hld.
  pose proof (run_consistent es start start_consistent) as Hc.
  destruct (frozen_run later (run es start)) as (Hl & Hs & Hr).
  - now apply loaded_has_no_pending.
  - now left.
  - rewrite Hld in Hr. split; [exact Hl|]. split; [exact Hs|].
    split; [exact Hr|]. unfold getLoadedState. rewrite Hl, Hld.
    destruct Hc as (_ & _ & _ & _ & H).
    destruct (H Hld) as (_ & _ & -> & _). reflexivity.
Qed.

Lemma loaded_is_final_witness :
  let es := [ev_loadModel None; ev_detect 0 (inr true);
             ev_processor 0 None; ev_model 0 None] in
  isLoaded (loader (run es start)) = true /\
  returned (run [ev_loadModel None; ev_model 0 (Some "late")]
              (run es start))
  = [promise 0; already_loaded].
Proof.
  cbn zeta. split; [reflexivity|].
  destruct (loaded_is_final
              [ev_loadModel None; ev_detect 0 (inr true);
               ev_processor 0 None; ev_model 0 None]
              [ev_loadModel None; ev_model 0 (Some "late")] eq_refl)
    as (_ & _ & Hr & _).
  exact Hr.
Defined.

(** X17. On a service that is neither loaded nor loading, a call of
    [loadModel] whose body reaches its first [await] starts a load. But
    when the load body throws before its first [await] (the progress
    callback or [detect] throwing), its [finally] clause runs before
    [this.loadPromise] is assigned: the rejected promise stays in
    [loadPromise], and from then on every call of [loadModel] returns
    that rejected promise, no load is started again and the model is
    never loaded. *)
Theorem early_throw_wedges_loading (es later : list Event)
    (reason : string) :
  let sys := run es start in
  isLoaded (loader sys) = false ->
  loadPromise (loader sys) = None ->
  let i := length (loads sys) in
  loads (loadModel None sys) = loads sys ++ [at_detect] /\
  isLoading (loader (loadModel None sys)) = true /\
  returned (loadModel None sys) = returned sys ++ [promise i] /\
  let stuck := loadModel (Some reason) sys in
  wedged i stuck /\
  loads stuck = loads sys ++ [rejected reason] /\
  loader (run later stuck) = loader stuck /\
  loads (run later stuck) = loads stuck /\
  returned (run later stuck)
  = returned sys ++ promise i :: replicate (calls later) (promise i) /\
  getLoadedState (run later stuck) = (false, false).
Proof.
  cbn zeta. intros Hnl Hnone.
  pose proof (run_consistent es start start_consistent) as Hc.
  pose proof (idle_has_no_pending _ Hc Hnone) as Hzero.
  unfold loadModel. rewrite Hnl, Hnone.
  split; [reflexivity|]. split; [reflexivity|]. split; [reflexivity|].
  set (stuck := {| loader := _; loads := _ ++ [rejected reason];
                   returned := _ |}).
  assert (Hz : pending_loads stuck = 0).
  { unfold pending_loads, stuck in *. cbn. rewrite count_snoc, Hzero.
    reflexivity. }
  split; [repeat split; exact Hz|]. split; [reflexivity|].
  destruct (frozen_run later stuck Hz) as (Hl & Hs & Hr).
  { right. cbn. eauto. }
  split; [exact Hl|]. split; [exact Hs|]. split.
  - rewrite Hr. cbn. rewrite <- app_assoc. reflexivity.
  - unfold getLoadedState. rewrite Hl. reflexivity.
Qed.

Lemma early_throw_wedges_loading_witness :
  isLoaded (loader (run [] start)) = false /\
  loadPromise (loader (run [] start)) = None /\
  returned
    (run [ev_loadModel None; ev_loadModel None]
       (loadModel (Some "callback threw") (run [] start)))
  = [promise 0; promise 0; promise 0] /\
  loads
    (run [ev_loadModel None; ev_loadModel None]
       (loadModel (Some "callback threw") (run [] start)))
  = [rejected "callback threw"].
Proof.
  destruct (early_throw_wedges_loading []
              [ev_loadModel None; ev_loadModel None] "callback threw"
              eq_refl eq_refl)
    as (_ & _ & _ & _ & _ & _ & Hs & Hr & _).
  split; [reflexivity|]. split; [reflexivity|].
  split; [exact Hr | exact Hs].
Defined.

(** X18. A load that is rejected at one of its [await]s (no WebGPU, the
    processor or the model failing to load) leaves the service neither
    loaded nor loading and without a held promise, so the next call of
    [loadModel] starts a new load: a failed load can be retried. *)
Theorem failed_load_can_be_retried (es : list Event) (e : Event)
    (i : nat) (s : Stage) (reason : string) :
  let sys := run es start in
  loads sys !! i = Some s ->
  pending s = true ->
  loads (step sys e) !! i = Some (rejected reason) ->
  let failed := step sys e in
  getLoadedState failed = (false, false) /\
  loadPromise (loader failed) = None /\
  loads (loadModel None failed) = loads failed ++ [at_detect] /\
  isLoading (loader (loadModel None failed)) = true /\
  returned (loadModel None failed)
  = returned failed ++ [promise (length (loads failed))].
Proof.
  cbn zeta. intros Hi Hs Hrej.
  pose proof (run_consistent es start start_consistent) as Hc.
  destruct (pending_is_held _ i s Hc Hi Hs) as (Hp & Hl & Hnl & _).
  set (sys := run es start) in *. clearbody sys.
  assert (Hfail : forall r, loads (fail i r sys) !! i = Some (rejected reason)
                    \/ True ->
            getLoadedState (fail i r sys) = (false, false)
            /\ loadPromise (loader (fail i r sys)) = None
            /\ loads (loadModel None (fail i r sys))
               = loads (fail i r sys) ++ [at_detect]
            /\ isLoading (loader (loadModel None (fail i r sys))) = true
            /\ returned (loadModel None (fail i r sys))
               = returned (fail i r sys)
                 ++ [promise (length (loads (fail i r sys)))]).
  { intros r _. unfold getLoadedState, loadModel, fail. cbn.
    rewrite Hnl. repeat split. }
  assert (Hother : forall j (x : Stage),
            (<[j := x]> (loads sys)) !! i = Some (rejected reason) ->
            pending x = true -> False).
  { intros j x Hj Hx. destruct (decide (j = i)) as [->|Hne].
    - rewrite list_lookup_insert_eq in Hj
        by (eapply lookup_lt_Some; eauto).
      injection Hj as ->. discriminate.
    - rewrite list_lookup_insert_ne in Hj by assumption.
      rewrite Hi in Hj. injection Hj as ->. discriminate. }
  assert (Hsame : loads sys !! i = Some (rejected reason) -> False)
    by (intros H; rewrite Hi in H; injection H as ->; discriminate).
  assert (Hidx : forall j x, loads sys !! j = Some x -> pending x = true ->
                   j = i).
  { intros j x Hj Hx. destruct Hc as (_ & Hheld & _).
    pose proof (Hheld j x Hj Hx). congruence. }
  destruct e as [sync|j answer|j error|j error]; cbn in *.
  - exfalso. unfold loadModel in Hrej. rewrite Hnl, Hp in Hrej.
    cbn in Hrej. auto.
  - unfold detect_settles in *.
    destruct (loads sys !! j) as [[| | | |r]|] eqn:Hj;
      try (exfalso; auto; fail).
    pose proof (Hidx j _ Hj eq_refl) as ->.
    destruct answer as [r|[|]]; try (apply Hfail; auto; fail).
    exfalso. cbn in Hrej. eapply Hother; [exact Hrej | reflexivity].
  - unfold processor_settles in *.
    destruct (loads sys !! j) as [[| | | |r]|] eqn:Hj;
      try (exfalso; auto; fail).
    pose proof (Hidx j _ Hj eq_refl) as ->.
    destruct error as [r|]; try (apply Hfail; auto; fail).
    exfalso. cbn in Hrej. eapply Hother; [exact Hrej | reflexivity].
  - unfold model_settles in *.
    destruct (loads sys !! j) as [[| | | |r]|] eqn:Hj;
      try (exfalso; auto; fail).
    pose proof (Hidx j _ Hj eq_refl) as ->.
    destruct error as [r|]; try (apply Hfail; auto; fail).
    exfalso. cbn in Hrej.
    rewrite list_lookup_insert_eq in Hrej
      by (eapply lookup_lt_Some; eauto).
    discriminate.
Qed.

Lemma failed_load_can_be_retried_witness :
  let es := [ev_loadModel None; ev_detect 0 (inr true)] in
  loads (run es start) !! 0 = Some at_processor /\
  loads (step (run es start) (ev_processor 0 (Some "network"))) !! 0
  = Some (rejected "network") /\
  loads (loadModel None
           (step (run es start) (ev_processor 0 (Some "network"))))
  = [rejected "network"; at_detect].
Proof.
  cbn zeta.
  destruct (failed_load_can_be_retried
              [ev_loadModel None; ev_detect 0 (inr true)]
              (ev_processor 0 (Some "network")) 0 at_processor "network"
              eq_refl eq_refl eq_refl)
    as (_ & _ & Hl & _).
  split; [reflexivity|]. split; [reflexivity|]. exact Hl.
Defined.

End LoaderProps.

(** * Properties of the camera error explanations *)

Module CameraErrorProps.
Import CameraErrors.

(** The explanations [getCameraErrorMessage] can give. *)
Lemma explanation_cases (b : Browser) (error : CameraError) :
  let errorName := or_else (name error)
                     (or_else (error_message error) "Unknown") in
  In (getCameraErrorMessage b error)
     [denied_on_safari; denied; not_found; not_readable;
      overconstrained_on_ios; overconstrained; insecure b; aborted;
      generic b errorName error].
Proof.
  cbn zeta. unfold getCameraErrorMessage.
  repeat match goal with
         | |- context [if ?c then _ else _] => destruct c
         end; cbn; tauto.
Qed.

Lemma append_not_empty (s t : string) : t <> "" -> s +:+ t <> "".
Proof. destruct s; cbn; [auto | discriminate]. Qed.

Lemma message_not_empty (b : Browser) (error : CameraError) :
  message (getCameraErrorMessage b error) <> "".
Proof.
  pose proof (explanation_cases b error) as H. cbn zeta in H.
  cbn [In] in H.
  repeat (destruct H as [<- | H]; [discriminate|]). contradiction.
Qed.

Lemma or_default_given (s d : string) : s <> "" -> or_default (Some s) d = s.
Proof.
  intros Hs. unfold or_default.
  destruct (String.eqb s "") eqn:He; [|reflexivity].
  apply String.eqb_eq in He. contradiction.
Qed.

(** X19. In an insecure context the cause of an error is only named
    when it is one of the first four kinds (denied, no camera, camera
    in use, constraints): every other error, an AbortError included, is
    explained as 'Insecure Connection', and the 'Camera Access
    Interrupted' and generic explanations are never given. In a secure
    context an AbortError gets its own explanation. *)
Theorem insecure_context_hides_the_cause (b : Browser)
    (error : CameraError) :
  (isSecureContext b = false ->
   In (getCameraErrorMessage b error)
      [denied_on_safari; denied; not_found; not_readable;
       overconstrained_on_ios; overconstrained; insecure b] /\
   title (getCameraErrorMessage b error) <> title aborted /\
   (forall errorName e,
      title (getCameraErrorMessage b error)
      <> title (generic b errorName e))) /\
  (name error = "AbortError" ->
   getCameraErrorMessage b error
   = if isSecureContext b then aborted else insecure b).
Proof.
  split.
  - intros Hinsecure.
    assert (Hin : In (getCameraErrorMessage b error)
                    [denied_on_safari; denied; not_found; not_readable;
                     overconstrained_on_ios; overconstrained; insecure b]).
    { unfold getCameraErrorMessage. rewrite Hinsecure.
      rewrite orb_true_r.
      repeat match goal with
             | |- context [if ?c then _ else _] => destruct c
             end; cbn; tauto. }
    split; [exact Hin|].
    cbn [In] in Hin.
    split; [|intros errorName e];
      repeat (destruct Hin as [<- | Hin]; [discriminate|]);
      contradiction.
  - intros Hname. unfold getCameraErrorMessage. rewrite Hname. cbn.
    destruct (isSecureContext b); reflexivity.
Qed.

Lemma insecure_context_hides_the_cause_witness :
  let b := {| isSafari := false; isiOS := false; isFirefox := true;
              isSecureContext := false |} in
  let error := {| name := "TypeError";
                  error_message := "navigator.mediaDevices is undefined" |} in
  isSecureContext b = false /\
  getCameraErrorMessage b error = insecure b /\
  title (getCameraErrorMessage b error) <> title aborted.
Proof.
  cbn zeta.
  destruct (insecure_context_hides_the_cause
              {| isSafari := false; isiOS := false; isFirefox := true;
                 isSecureContext := false |}
              {| name := "TypeError";
                 error_message := "navigator.mediaDevices is undefined" |})
    as [H _].
  destruct (H eq_refl) as (_ & Ha & _).
  split; [reflexivity|]. split; [reflexivity | exact Ha].
Defined.

(** X20. The error [requestWebcamPermission] throws carries the
    explanation's message but has the name 'Error'. Explaining that
    error again loses the cause: in a secure context the result is the
    generic explanation, with the first message only in the technical
    line, and in an insecure context it is 'Insecure Connection'. So
    unless the first explanation was itself one of these two, the
    second has another title and another message. *)
Theorem second_explanation_is_generic (b : Browser) (error : CameraError) :
  let first := getCameraErrorMessage b error in
  let second := getCameraErrorMessage b (enrichedError first) in
  second
  = (if isSecureContext b then generic b "Error" (enrichedError first)
     else insecure b) /\
  (isSecureContext b = true ->
   title second = "❌ Camera Error" /\
   message second = "An unexpected error occurred accessing the camera." /\
   technical second = "Error: " +:+ message first) /\
  (title first <> "🔒 Insecure Connection" ->
   title first <> "❌ Camera Error" ->
   title second <> title first /\ message second <> message first).
Proof.
  cbn zeta.
  assert (Hsecond :
            getCameraErrorMessage b
              (enrichedError (getCameraErrorMessage b error))
            = if isSecureContext b
              then generic b "Error"
                     (enrichedError (getCameraErrorMessage b error))
              else insecure b).
  { unfold getCameraErrorMessage at 1. cbn.
    destruct (isSecureContext b); reflexivity. }
  split; [exact Hsecond|]. split.
  - intros Hsecure. rewrite Hsecond, Hsecure. cbn.
    split; [reflexivity|]. split; [reflexivity|].
    unfold or_else.
    destruct (String.eqb (message (getCameraErrorMessage b error)) "")
      eqn:He; [|reflexivity].
    apply String.eqb_eq in He.
    now apply message_not_empty in He.
  - rewrite Hsecond.
    pose proof (explanation_cases b error) as H. cbn zeta in H.
    cbn [In] in H. intros Hi Hg.
    repeat (destruct H as [H1 | H];
            [rewrite <- H1 in Hi, Hg |- *; clear H1;
             first [ now destruct (isSecureContext b)
                   | exfalso; apply Hi; reflexivity
                   | exfalso; apply Hg; reflexivity ] |]).
    contradiction.
Qed.

Lemma second_explanation_is_generic_witness :
  let b := {| isSafari := false; isiOS := false; isFirefox := false;
              isSecureContext := true |} in
  let error := {| name := "NotAllowedError";
                  error_message := "Permission denied" |} in
  getCameraErrorMessage b error = denied /\
  message (getCameraErrorMessage b
             (enrichedError (getCameraErrorMessage b error)))
  = "An unexpected error occurred accessing the camera." /\
  technical (getCameraErrorMessage b
               (enrichedError (getCameraErrorMessage b error)))
  = "Error: Please allow camera access in your browser settings:" /\
  title (getCameraErrorMessage b
           (enrichedError (getCameraErrorMessage b error)))
  <> title (getCameraErrorMessage b error).
Proof.
  cbn zeta.
  destruct (second_explanation_is_generic
              {| isSafari := false; isiOS := false; isFirefox := false;
                 isSecureContext := true |}
              {| name := "NotAllowedError";
                 error_message := "Permission denied" |})
    as (_ & Hsecure & Hlost).
  destruct (Hsecure eq_refl) as (_ & Hm & Ht).
  destruct Hlost as [Hl _]; [discriminate | discriminate |].
  split; [reflexivity|]. split; [exact Hm|]. split; [exact Ht | exact Hl].
Defined.

(** ** The permission dialog's error in the state machine *)

Lemma find_permission_denied :
  StateMachine.find_transition "PERMISSION_DENIED" StateMachine.v_permission
  = nth_error StateMachine.defineTransitions 1.
Proof. reflexivity. Qed.

(** X21. When main.js is told that the camera request failed while the
    machine is in the permission view, the PERMISSION_DENIED it
    dispatches is applied: the machine is in the error view with a
    CAMERA_DENIED error that carries the message and the technical line
    of [getCameraErrorMessage]'s explanation and a 'Retry' action that
    dispatches RETRY. The explanation's message is never empty, so the
    rule's own default text 'Camera access denied' is never used; the
    runtime state and the stream are left as they were. *)
Theorem permission_denied_is_explained (b : Browser) (error : CameraError)
    (w : StateMachine.World) :
  StateMachine.state w < length (StateMachine.apps (StateMachine.heap w)) ->
  StateMachine.viewState (StateMachine.this_state w)
  = StateMachine.v_permission ->
  let info := getCameraErrorMessage b error in
  let (applied, w') := permission_denied b error w in
  applied = true /\
  StateMachine.viewState (StateMachine.this_state w')
  = StateMachine.v_error /\
  StateMachine.this_error w'
  = Some {| StateMachine.code := "CAMERA_DENIED";
            StateMachine.message := message info;
            StateMachine.technical := Some (technical info);
            StateMachine.recoverAction :=
              Some (length (StateMachine.acts (StateMachine.heap w))) |} /\
  StateMachine.this_recoverAction w'
  = Some {| StateMachine.label := "Retry";
            StateMachine.handler := StateMachine.h_dispatch "RETRY" |} /\
  message info <> "" /\
  StateMachine.runtimeState (StateMachine.this_state w')
  = StateMachine.runtimeState (StateMachine.this_state w) /\
  StateMachine.webcamStream (StateMachine.this_state w')
  = StateMachine.webcamStream (StateMachine.this_state w).
Proof.
  intros Hlt Hview. cbn zeta. unfold permission_denied.
  pose proof (message_not_empty b error) as Hmsg.
  set (info := getCameraErrorMessage b error) in *. clearbody info.
  unfold StateMachine.dispatch.
  set (s := StateMachine.this_state w) in *.
  rewrite Hview, find_permission_denied. cbn -[or_default].
  rewrite (or_default_given _ _ Hmsg).
  split; [reflexivity|].
  unfold StateMachine.this_recoverAction, StateMachine.this_error,
    StateMachine.this_state.
  cbn.
  rewrite list_lookup_total_insert_eq by (rewrite length_app; cbn; lia).
  rewrite bool_decide_eq_false_2 by discriminate.
  cbn. rewrite list_lookup_middle by reflexivity.
  cbn. rewrite list_lookup_middle by reflexivity.
  repeat split. exact Hmsg.
Qed.

Lemma permission_denied_is_explained_witness :
  let b := {| isSafari := true; isiOS := true; isFirefox := false;
              isSecureContext := true |} in
  let error := {| name := "NotAllowedError"; error_message := "" |} in
  let w := StateMachine.new_StateMachine Main.initialState
             Scenarios.two_streams in
  StateMachine.state w < length (StateMachine.apps (StateMachine.heap w)) /\
  StateMachine.viewState (StateMachine.this_state w)
  = StateMachine.v_permission /\
  StateMachine.message
  <$> StateMachine.this_error (snd (permission_denied b error w))
  = Some "Safari/iOS detected. To enable camera:".
Proof.
  cbn zeta.
  set (w := StateMachine.new_StateMachine Main.initialState
              Scenarios.two_streams).
  assert (Hlt : StateMachine.state w
                < length (StateMachine.apps (StateMachine.heap w)))
    by (vm_compute; lia).
  pose proof (permission_denied_is_explained
                {| isSafari := true; isiOS := true; isFirefox := false;
                   isSecureContext := true |}
                {| name := "NotAllowedError"; error_message := "" |}
                w Hlt eq_refl) as H.
  cbn zeta in H.
  destruct (permission_denied _ _ w) as [applied w'].
  destruct H as (_ & _ & He & _).
  split; [exact Hlt|]. split; [reflexivity|].
  cbn [snd]. rewrite He. reflexivity.
Defined.

(** ** What the explanation depends on *)

Lemma append_cons (a : Ascii.ascii) (s t : string) :
  String a s +:+ t = String a (s +:+ t).
Proof. reflexivity. Qed.

Lemma append_empty_l (t : string) : "" +:+ t = t.
Proof. reflexivity. Qed.

Lemma prefix_spec (sub s : string) :
  String.prefix sub s = true <-> exists post, s = sub +:+ post.
Proof.
  revert s. induction sub as [|a sub IH]; intros s; destruct s as [|c s];
    cbn [String.prefix].
  - split; [eauto | reflexivity].
  - split; [eauto | reflexivity].
  - split; [discriminate | intros [post H]; discriminate].
  - destruct (Ascii.ascii_dec a c) as [<- | Hne].
    + rewrite IH. split; intros [post H]; exists post;
        rewrite append_cons in *; congruence.
    + split; [discriminate|].
      intros [post H]. rewrite append_cons in H. congruence.
Qed.

(** [includes] is JavaScript's [includes]: the text occurs somewhere. *)
Lemma includes_spec (s sub : string) :
  includes s sub = true <-> exists pre post, s = pre +:+ sub +:+ post.
Proof.
  induction s as [|c s IH]; cbn [includes].
  - rewrite orb_false_r, prefix_spec. split.
    + intros [post H]. exists "", post. exact H.
    + intros (pre & post & H). destruct pre as [|c pre].
      * rewrite append_empty_l in H. eauto.
      * rewrite append_cons in H. discriminate.
  - rewrite orb_true_iff, prefix_spec, IH. split.
    + intros [[post H] | (pre & post & H)].
      * exists "", post. exact H.
      * exists (String c pre), post. rewrite append_cons. congruence.
    + intros (pre & post & H). destruct pre as [|c' pre].
      * left. rewrite append_empty_l in H. eauto.
      * right. rewrite append_cons in H. exists pre, post. congruence.
Qed.

Lemma or_else_given (a d : string) : a <> "" -> or_else a d = a.
Proof.
  intros Ha. unfold or_else.
  destruct (String.eqb a "") eqn:He; [|reflexivity].
  apply String.eqb_eq in He. contradiction.
Qed.

(** X22. For an error that has a name the explanation is chosen from
    the name alone: its title, message and steps do not depend on the
    error's message, which is only looked at (for 'Permission denied',
    'not found' and the like) when the name is missing or empty. A
    nameless error whose message contains 'Permission denied' is
    explained as a denied permission. *)
Theorem named_error_ignores_message (b : Browser) (error : CameraError) :
  (name error <> "" ->
   forall other_message,
     let info := getCameraErrorMessage b error in
     let info' := getCameraErrorMessage b
                    {| name := name error;
                       error_message := other_message |} in
     title info' = title info /\ message info' = message info /\
     steps info' = steps info) /\
  (name error = "" ->
   (exists pre post,
      error_message error = pre +:+ "Permission denied" +:+ post) ->
   getCameraErrorMessage b error
   = if isiOS b || isSafari b then denied_on_safari else denied).
Proof.
  split.
  - intros Hname other_message. cbn zeta.
    unfold getCameraErrorMessage. cbn [name error_message].
    rewrite !(or_else_given (name error)) by assumption.
    repeat match goal with
           | |- context [if ?c then _ else _] => destruct c
           end; repeat split.
  - intros Hname Hmsg. unfold getCameraErrorMessage. rewrite Hname.
    assert (Hne : error_message error <> "").
    { destruct Hmsg as (pre & post & ->). destruct pre; discriminate. }
    cbn [or_else String.eqb].
    rewrite (or_else_given _ _ Hne).
    apply includes_spec in Hmsg. rewrite Hmsg, orb_true_r. reflexivity.
Qed.

Lemma named_error_ignores_message_witness :
  let b := {| isSafari := false; isiOS := false; isFirefox := false;
              isSecureContext := true |} in
  title (getCameraErrorMessage b
           {| name := "Error"; error_message := "Permission denied" |})
  = "❌ Camera Error" /\
  title (getCameraErrorMessage b
           {| name := ""; error_message := "Permission denied" |})
  = "🚫 Camera Access Denied".
Proof.
  cbn zeta.
  destruct (named_error_ignores_message
              {| isSafari := false; isiOS := false; isFirefox := false;
                 isSecureContext := true |}
              {| name := "Error"; error_message := "" |}) as [Hnamed _].
  destruct (Hnamed ltac:(discriminate) "Permission denied") as (Ht & _).
  destruct (named_error_ignores_message
              {| isSafari := false; isiOS := false; isFirefox := false;
                 isSecureContext := true |}
              {| name := ""; error_message := "Permission denied" |})
    as [_ Hnameless].
  split.
  - cbn [name] in Ht. rewrite Ht. reflexivity.
  - rewrite (Hnameless eq_refl); [reflexivity|].
    exists "", "". reflexivity.
Defined.

End CameraErrorProps.

(** * Properties of the state manager *)

Module StateManagerProps.
Import StateManager.

Section Values.

Variable Value : Type.
Variable strict_eq : Value -> Value -> bool.
Variable inherited : string -> Value.

Local Abbreviation get := (get inherited).
Local Abbreviation hasChanges := (hasChanges strict_eq inherited).
Local Abbreviation setState := (setState strict_eq inherited).
Local Abbreviation run := (run strict_eq inherited).

Lemma get_own (object : Obj Value) key v :
  object !! key = Some v -> get object key = v.
Proof. unfold StateManager.get. now intros ->. Qed.

Lemma hasChanges_true (current updates : Obj Value) :
  hasChanges current updates = true
  <-> exists key v, updates !! key = Some v
                    /\ strict_eq (get current key) v = false.
Proof.
  unfold StateManager.hasChanges, keys. rewrite existsb_exists. split.
  - intros (key & Hin & Hne).
    apply in_map_iff in Hin as ([k v] & <- & Hin). cbn in *.
    apply list_elem_of_In, elem_of_map_to_list in Hin.
    exists k, v. split; [assumption|].
    rewrite (get_own _ _ _ Hin) in Hne. now apply negb_true_iff.
  - intros (key & v & Hu & Hne). exists key. split.
    + apply in_map_iff. exists (key, v). split; [reflexivity|].
      now apply list_elem_of_In, elem_of_map_to_list.
    + rewrite (get_own _ _ _ Hu). now apply negb_true_iff.
Qed.

Lemma hasChanges_false (current updates : Obj Value) :
  hasChanges current updates = false
  <-> forall key v, updates !! key = Some v ->
                    strict_eq (get current key) v = true.
Proof.
  split.
  - intros Hno key v Hu.
    destruct (strict_eq (get current key) v) eqn:He; [reflexivity|].
    assert (hasChanges current updates = true)
      by (apply hasChanges_true; eauto).
    congruence.
  - intros Hall. destruct (hasChanges current updates) eqn:Hc; [|reflexivity].
    apply hasChanges_true in Hc as (key & v & Hu & Hne).
    rewrite (Hall key v Hu) in Hne. discriminate.
Qed.

Lemma run_snoc calls updates (m : Manager Value) :
  run (calls ++ [updates]) m = snd (setState updates (run calls m)).
Proof. unfold StateManager.run. now rewrite fold_left_app. Qed.

Lemma setState_cases updates (m : Manager Value) :
  (hasChanges (this_state m) updates = true /\
   setState updates m
   = (updates ∪ this_state m,
      {| this_state := updates ∪ this_state m;
         emitted := emitted m
           ++ [{| state := updates ∪ this_state m;
                  prevState := this_state m; updates := updates |}] |}))
  \/ (hasChanges (this_state m) updates = false /\
      setState updates m = (this_state m, m)).
Proof.
  unfold StateManager.setState.
  destruct (hasChanges (this_state m) updates); [left | right]; now split.
Qed.

(** X23. The events of a state manager trace its state. After any
    sequence of [setState] calls on a new manager, the previous states
    carried by the events, followed by the current state, are the
    initial state followed by the states carried by the events: each
    event starts where the one before ended, and the last one carries
    the current state. Every event reports a real change: its state is
    its previous state overridden by its updates, and some updated key
    held a value that was not strictly equal to the new one. So there
    are at most as many events as calls. *)
Theorem events_trace_the_state (initialState : Obj Value)
    (calls : list (Obj Value)) :
  let m := run calls (new_StateManager initialState) in
  map prevState (emitted m) ++ [this_state m]
  = initialState :: map state (emitted m) /\
  Forall (fun d =>
            state d = updates d ∪ prevState d /\
            exists key v,
              updates d !! key = Some v /\
              strict_eq (get (prevState d) key) v = false /\
              state d !! key = Some v)
         (emitted m) /\
  length (emitted m) <= length calls.
Proof.
  cbn zeta. induction calls as [|updates calls IH] using rev_ind.
  - cbn. repeat split; [constructor | lia].
  - rewrite run_snoc.
    set (m := run calls (new_StateManager initialState)) in *.
    destruct IH as (Hchain & Hall & Hlen).
    rewrite length_app. cbn [length].
    unfold StateManager.setState.
    destruct (hasChanges (this_state m) updates) eqn:Hc; cbn [snd].
    + cbn [this_state emitted]. rewrite !map_app. cbn [map state prevState].
      split; [|split].
      * rewrite app_comm_cons, <- Hchain. now rewrite <- app_assoc.
      * apply Forall_app. split; [exact Hall|].
        constructor; [|constructor]. cbn. split; [reflexivity|].
        apply hasChanges_true in Hc as (key & v & Hu & Hne).
        exists key, v. split; [assumption|]. split; [assumption|].
        now apply lookup_union_Some_l.
      * rewrite length_app. cbn. lia.
    + split; [exact Hchain|]. split; [exact Hall | lia].
Qed.

(** X24. [setState] with the same updates a second time is silent,
    provided each updated value is strictly equal to itself (which
    every value but NaN is): the second call emits nothing and returns
    the state the first call left. After the first call every updated
    key reads a value strictly equal to the update, the keys that were
    not updated read what they read before, and no key has been
    removed. *)
Theorem repeated_setState_is_silent (updates : Obj Value)
    (m : Manager Value) :
  (forall key v, updates !! key = Some v -> strict_eq v v = true) ->
  let m1 := snd (setState updates m) in
  setState updates m1 = (this_state m1, m1) /\
  (forall key v, updates !! key = Some v ->
     strict_eq (get (this_state m1) key) v = true) /\
  (forall key, updates !! key = None ->
     this_state m1 !! key = this_state m !! key) /\
  (forall key, is_Some (this_state m !! key) ->
     is_Some (this_state m1 !! key)).
Proof.
  intros Hrefl. cbn zeta.
  destruct (setState_cases updates m) as [[Hc ->] | [Hc ->]];
    cbn [snd this_state].
  - assert (Hread : forall key v, updates !! key = Some v ->
              strict_eq (get (updates ∪ this_state m) key) v = true).
    { intros key v Hu.
      rewrite (get_own _ key v) by now apply lookup_union_Some_l.
      now apply (Hrefl key). }
    split; [|split; [exact Hread|split]].
    + unfold StateManager.setState. cbn [this_state].
      now rewrite (proj2 (hasChanges_false _ _) Hread).
    + intros key Hu. now apply lookup_union_r.
    + intros key [v Hv].
      destruct (updates !! key) as [u|] eqn:Hu.
      * exists u. now apply lookup_union_Some_l.
      * exists v. now rewrite lookup_union_r.
  - split; [|split; [|split]]; try done.
    + unfold StateManager.setState. now rewrite Hc.
    + now apply hasChanges_false.
Qed.

End Values.

Lemma repeated_setState_is_silent_witness :
  let inherited := fun _ : string => undefined in
  let m := new_StateManager {[ "count" := number 0 ]} in
  let updates : Obj Primitive := {[ "count" := number 1 ]} in
  (forall key v, updates !! key = Some v -> strict_eq v v = true) /\
  length (emitted (snd (setState strict_eq inherited updates m))) = 1 /\
  length (emitted (run strict_eq inherited [updates; updates] m)) = 1.
Proof.
  cbn zeta.
  assert (Hrefl : forall key v,
            ({[ "count" := number 1 ]} : Obj Primitive) !! key = Some v ->
            strict_eq v v = true).
  { intros key v [_ <-]%lookup_singleton_Some. reflexivity. }
  split; [exact Hrefl|].
  destruct (repeated_setState_is_silent Primitive strict_eq
              (fun _ => undefined) {[ "count" := number 1 ]}
              (new_StateManager {[ "count" := number 0 ]}) Hrefl)
    as (Hsecond & _).
  assert (Hfirst : length (emitted (snd (setState strict_eq
                     (fun _ => undefined) {[ "count" := number 1 ]}
                     (new_StateManager {[ "count" := number 0 ]})))) = 1).
  { unfold setState. cbn [this_state new_StateManager].
    rewrite (proj2 (hasChanges_true Primitive strict_eq (fun _ => undefined)
                      {[ "count" := number 0 ]} {[ "count" := number 1 ]})).
    - reflexivity.
    - exists "count", (number 1). split; [apply lookup_singleton_eq|].
      unfold get. rewrite lookup_singleton_eq. reflexivity. }
  split; [exact Hfirst|].
  unfold run. cbn [fold_left]. rewrite Hsecond. exact Hfirst.
Defined.

(** An update to NaN is never silent: NaN is not strictly equal to
    itself, so every call emits an event. *)
Lemma setState_NaN_always_emits (m : Manager Primitive) :
  let inherited := fun _ : string => undefined in
  emitted (snd (setState strict_eq inherited {[ "x" := NaN ]} m))
  = emitted m
    ++ [{| state := {[ "x" := NaN ]} ∪ this_state m;
           prevState := this_state m;
           updates := {[ "x" := NaN ]} |}].
Proof.
  cbn zeta. unfold setState.
  rewrite (proj2 (hasChanges_true Primitive strict_eq (fun _ => undefined)
                    (this_state m) {[ "x" := NaN ]})).
  - reflexivity.
  - exists "x", NaN. split; [apply lookup_singleton_eq|].
    destruct (get _ _ _); reflexivity.
Qed.

End StateManagerProps.
